(** * gomegalint: the assertion matcher, the style check and the nilness check

    A shallow embedding of the linter's decision logic.  The Go syntax tree
    is cut down to the node kinds the linter inspects; a Go panic is an
    explicit [Panic] result; [pass.Report] appends to the list of
    diagnostics carried by the pass. *)

From Stdlib Require Import ZArith List String Ascii Bool Lia.
Import ListNotations.
Open Scope string_scope.
Open Scope Z_scope.

(** ** Results of code that may panic *)

Inductive result (A : Type) : Type :=
| Ok (a : A)
| Panic (msg : string).
Arguments Ok {A} a.
Arguments Panic {A} msg.

Definition bind {A B : Type} (r : result A) (k : A -> result B) : result B :=
  match r with
  | Ok a => k a
  | Panic msg => Panic msg
  end.

Notation "x <- r ;; k" := (bind r (fun x => k))
  (at level 61, r at next level, right associativity).

(** [xs[i]] on a Go slice: a run-time panic when [i] is out of range. *)
Definition index {A : Type} (xs : list A) (i : nat) : result A :=
  match nth_error xs i with
  | Some x => Ok x
  | None => Panic "runtime error: index out of range"
  end.

(** ** go/ast, as far as the linter looks into it *)

(** [token.Pos] is an integer offset. *)
Definition Pos := Z.

(** [len(s)] counts bytes; a [string] here is a sequence of bytes as well. *)
Definition len (s : string) : Z := Z.of_nat (String.length s).

Record Ident : Type := mkIdent { NamePos : Pos; Name : string }.

#[warnings="-register-all"]
Inductive Expr : Type :=
| EIdent (id : Ident)
| ECallExpr (Fun : Expr) (Lparen : Pos) (Args : list Expr)
            (Ellipsis : Pos) (Rparen : Pos)
| ESelectorExpr (X : Expr) (Sel : Ident)
| EOther (from to : Pos).   (* literals, operators, ...: never inspected *)

(** An [ast.Node] handed to the callback of [ast.Inspect]: an expression,
    some other kind of node, or the [nil] that closes a subtree. *)
Inductive Node : Type :=
| NExpr (e : Expr)
| NOther
| NNil.

Definition Ident_Pos (x : Ident) : Pos := NamePos x.
Definition Ident_End (x : Ident) : Pos := NamePos x + len (Name x).

Fixpoint Expr_Pos (e : Expr) : Pos :=
  match e with
  | EIdent id => Ident_Pos id
  | ECallExpr f _ _ _ _ => Expr_Pos f
  | ESelectorExpr x _ => Expr_Pos x
  | EOther from _ => from
  end.

Definition Expr_End (e : Expr) : Pos :=
  match e with
  | EIdent id => Ident_End id
  | ECallExpr _ _ _ _ rparen => rparen + 1
  | ESelectorExpr _ sel => Ident_End sel
  | EOther _ to => to
  end.

(** ** golang.org/x/tools/go/analysis: diagnostics *)

Record TextEdit : Type := mkTextEdit
  { te_Pos : Pos; te_End : Pos; NewText : string }.

Record SuggestedFix : Type := mkSuggestedFix
  { sf_Message : string; TextEdits : list TextEdit }.

Record Diagnostic : Type := mkDiagnostic
  { d_Pos : Pos; d_End : Pos; Message : string;
    SuggestedFixes : list SuggestedFix }.

(** ** Names and styles *)

(** The two bytes of the UTF-8 encoding of the Greek capital omega. *)
Definition Omega : string := String "206" (String "169" EmptyString).
Definition Expect : string := "Expect".
Definition Should : string := "Should".
Definition ShouldNot : string := "ShouldNot".
Definition To : string := "To".
Definition ToNot : string := "ToNot".
Definition NotTo : string := "NotTo".

(** [type Style int], with the two constants numbered by [iota]. *)
Definition Style := Z.
Definition ShouldStyle : Style := 0.
Definition ExpectStyle : Style := 1.

(** A Go [switch] over string constants: the first list that holds the
    tag decides. *)
Fixpoint oneOf (s : string) (cases : list string) : bool :=
  match cases with
  | [] => false
  | c :: rest => (s =? c)%string || oneOf s rest
  end.

Definition getStyle (s : string) : result Style :=
  if oneOf s [Omega; Should; ShouldNot] then Ok ShouldStyle
  else if oneOf s [Expect; To; ToNot; NotTo] then Ok ExpectStyle
  else Panic "foo".

Definition renderInStyle (style : Style) (negated : bool) : result string :=
  if style =? ShouldStyle then
    if negated then Ok ShouldNot else Ok Should
  else if style =? ExpectStyle then
    if negated then Ok NotTo else Ok To
  else Panic "bar".

(** ** The assertion matcher *)

(** [assertion] describes a call like [Omega(X).Should(Y)]. *)
Record assertion : Type := mkAssertion
  { CallExpr : Expr;      (* whole *)
    a_Omega : Ident;      (* wrapper part *)
    Subject : Expr;       (* X part *)
    a_Should : Ident;     (* comparator part *)
    Matcher : Expr;       (* Y part *)
    Negated : bool }.     (* whether the matcher is negated *)

Definition assertion_Pos (ass : assertion) : Pos := Expr_Pos (CallExpr ass).
Definition assertion_End (ass : assertion) : Pos := Expr_End (CallExpr ass).

(** The second [switch] of [getAssertion]: negation by comparator name, or
    [None] for its [default] case. *)
Definition comparatorNegated (name : string) : option bool :=
  if oneOf name [Should; To] then Some false
  else if oneOf name [ShouldNot; ToNot; NotTo] then Some true
  else None.

Definition getAssertion (n : Node) : result (option assertion) :=
  match n with
  | NExpr (ECallExpr callFun _ callArgs _ _ as call) =>
    if negb (Nat.eqb (List.length callArgs) 1) then Ok None else
    match callFun with
    | ESelectorExpr (ECallExpr omegaFun _ omegaArgs _ _) sel =>
      (* the source tests len(call.Args) here a second time *)
      if negb (Nat.eqb (List.length callArgs) 1) then Ok None else
      match omegaFun with
      | EIdent omega =>
        if negb (oneOf (Name omega) [Omega; Expect]) then Ok None else
        match comparatorNegated (Name sel) with
        | None => Ok None
        | Some negated =>
          subject <- index omegaArgs 0 ;;
          matcher <- index callArgs 0 ;;
          Ok (Some {| CallExpr := call; a_Omega := omega; Subject := subject;
                      a_Should := sel; Negated := negated;
                      Matcher := matcher |})
        end
      | _ => Ok None
      end
    | _ => Ok None
    end
  | _ => Ok None
  end.

(** ** The pass *)

(** What go/types answers: the static type recorded for an expression
    ([info.Types[e].Type]) and whether a type implements the [error]
    interface ([types.Implements(t, errorInterface)]). *)
Record types_Info : Type := mkInfo
  { GoType : Type;
    Types_Type : Expr -> GoType;
    Implements_errorInterface : GoType -> bool }.

(** One file is the sequence of nodes [ast.Inspect] hands to a callback
    that always answers [true]. *)
Definition File := list Node.

Record Pass : Type := mkPass
  { Files : list File;
    TypesInfo : types_Info;
    Reported : list Diagnostic }.   (* what [pass.Report] has received *)

Definition Report (pass : Pass) (d : Diagnostic) : Pass :=
  {| Files := Files pass; TypesInfo := TypesInfo pass;
     Reported := Reported pass ++ [d] |}.

(** ** The style check *)

Definition checkStyle (ass : assertion) (pass : Pass) (emitFixes : bool)
  : result Pass :=
  omegaStyle <- getStyle (Name (a_Omega ass)) ;;
  shouldStyle <- getStyle (Name (a_Should ass)) ;;
  if omegaStyle =? shouldStyle then Ok pass else
  let d := {| d_Pos := assertion_Pos ass;
              d_End := assertion_End ass;
              Message := "inconsistent assertion style (" ++
                         Name (a_Omega ass) ++ " + " ++
                         Name (a_Should ass) ++ ")";
              SuggestedFixes := [] |} in
  d <- (if emitFixes then
          style <- getStyle (Name (a_Omega ass)) ;;
          fixedShould <- renderInStyle style (Negated ass) ;;
          Ok {| d_Pos := d_Pos d; d_End := d_End d; Message := Message d;
                SuggestedFixes :=
                  [ {| sf_Message :=
                         "change " ++ Name (a_Should ass) ++ " to " ++ fixedShould;
                       TextEdits :=
                         [ {| te_Pos := Ident_Pos (a_Should ass);
                              te_End := Ident_End (a_Should ass);
                              NewText := fixedShould |} ] |} ] |}
        else Ok d) ;;
  Ok (Report pass d).

(** ** The nilness check *)

(** [type KnownMatcher string] *)
Definition KnownMatcher := string.
Definition UnknownMatcher : KnownMatcher := EmptyString.
Definition IsNil : KnownMatcher := "BeNil".
Definition HaveOccurred : KnownMatcher := "HaveOccurred".
Definition Succeed : KnownMatcher := "Succeed".

Definition matchesNil (m : KnownMatcher) : bool := negb (m =? HaveOccurred)%string.

(** The matcher's callee ([None] is the nil pointer) and its kind. *)
Definition getKnownMatcher (ass : assertion) : option Ident * KnownMatcher :=
  match Matcher ass with
  | ECallExpr callFun _ callArgs _ _ =>
    if negb (Nat.eqb (List.length callArgs) 0) then (None, UnknownMatcher) else
    match callFun with
    | EIdent matcherIdent =>
      let knownMatcher : KnownMatcher := Name matcherIdent in
      if oneOf knownMatcher [IsNil; HaveOccurred; Succeed]
      then (Some matcherIdent, knownMatcher)
      else (None, UnknownMatcher)
    | _ => (None, UnknownMatcher)
    end
  | _ => (None, UnknownMatcher)
  end.

(** [isErrorExpr] returns whether the type of [e] is an error or something
    that implements it. *)
Definition isErrorExpr (e : Expr) (info : types_Info) : bool :=
  Implements_errorInterface info (Types_Type info e).

(** [_, isCall := e.( *ast.CallExpr)] *)
Definition isCallExpr (e : Expr) : bool :=
  match e with
  | ECallExpr _ _ _ _ _ => true
  | _ => false
  end.

(** A method call through a pointer that may be nil. *)
Definition deref {A : Type} (p : option A) : result A :=
  match p with
  | Some x => Ok x
  | None => Panic "runtime error: invalid memory address or nil pointer dereference"
  end.

(** [checkNilnessAssertions] checks which of the BeNil/HaveOccurred/Succeed
    matchers is the most appropriate and returns whether a [TextEdit] for
    the comparator part of the assertion was emitted. *)
Definition checkNilnessAssertions (ass : assertion) (pass : Pass)
  : result (bool * Pass) :=
  let '(matcherIdent, matcher) := getKnownMatcher ass in
  if (matcher =? UnknownMatcher)%string then Ok (false, pass) else
  let expectedMatcher : KnownMatcher :=
    if isErrorExpr (Subject ass) (TypesInfo pass) then
      if isCallExpr (Subject ass) then Succeed else HaveOccurred
    else IsNil in
  if (matcher =? expectedMatcher)%string then Ok (false, pass) else
  mi <- deref matcherIdent ;;
  let fix0 := {| sf_Message := "change matcher to " ++ expectedMatcher;
                 TextEdits := [ {| te_Pos := Ident_Pos mi;
                                   te_End := Ident_End mi;
                                   NewText := expectedMatcher |} ] |} in
  let needsInverting :=
    negb (Bool.eqb (matchesNil matcher) (matchesNil expectedMatcher)) in
  fix1 <- (if needsInverting then
             style <- getStyle (Name (a_Omega ass)) ;;
             shouldText <-
               renderInStyle style (negb (Bool.eqb (Negated ass) needsInverting)) ;;
             Ok {| sf_Message := sf_Message fix0 ++ " and invert the assertion";
                   TextEdits := TextEdits fix0 ++
                     [ {| te_Pos := Ident_Pos (a_Should ass);
                          te_End := Ident_End (a_Should ass);
                          NewText := shouldText |} ] |}
           else Ok fix0) ;;
  let d := {| d_Pos := assertion_Pos ass;
              d_End := assertion_End ass;
              Message := "unidiomatic matcher: consider using " ++
                         expectedMatcher ++ " instead of " ++ matcher ++
                         " in this assertion";
              SuggestedFixes := [fix1] |} in
  Ok (needsInverting, Report pass d).

(** ** The driver *)

(** The callback [run] gives to [ast.Inspect]; it always answers [true], so
    only its effect on the pass is kept. *)
Definition visit (pass : Pass) (n : Node) : result Pass :=
  found <- getAssertion n ;;
  match found with
  | None => Ok pass
  | Some ass =>
    r <- checkNilnessAssertions ass pass ;;
    let '(emittedShouldFix, pass1) := r in
    checkStyle ass pass1 (negb emittedShouldFix)
  end.

Fixpoint inspect (nodes : File) (pass : Pass) : result Pass :=
  match nodes with
  | [] => Ok pass
  | n :: rest => pass1 <- visit pass n ;; inspect rest pass1
  end.

Fixpoint inspectFiles (files : list File) (pass : Pass) : result Pass :=
  match files with
  | [] => Ok pass
  | file :: rest => pass1 <- inspect file pass ;; inspectFiles rest pass1
  end.

Definition run (pass : Pass) : result Pass := inspectFiles (Files pass) pass.

(** ** src/main.go: the style check before the nilness check existed *)

Module MainGo.

Definition checkStyle (ass : assertion) (pass : Pass) : result Pass :=
  omegaStyle <- getStyle (Name (a_Omega ass)) ;;
  shouldStyle <- getStyle (Name (a_Should ass)) ;;
  if negb (omegaStyle =? shouldStyle) then
    style <- getStyle (Name (a_Omega ass)) ;;
    newText <- renderInStyle style (Negated ass) ;;
    let d := {| d_Pos := assertion_Pos ass;
                d_End := assertion_End ass;
                Message := "incosistent assertion style (" ++
                           Name (a_Omega ass) ++ " + " ++
                           Name (a_Should ass) ++ ")";
                SuggestedFixes :=
                  [ {| sf_Message := EmptyString;
                       TextEdits :=
                         [ {| te_Pos := Ident_Pos (a_Should ass);
                              te_End := Ident_End (a_Should ass);
                              NewText := newText |} ] |} ] |} in
    Ok (Report pass d)
  else Ok pass.

Definition visit (pass : Pass) (n : Node) : result Pass :=
  found <- getAssertion n ;;
  match found with
  | None => Ok pass
  | Some ass => checkStyle ass pass
  end.

End MainGo.

(** ** What the specification says, for comparison with the code *)

(** The shape [Wrapper(Subject).Comparator(Matcher)]: a wrapper name and a
    comparator name from the known sets, and exactly one argument at each
    of the two call layers. *)
Definition assertionShaped (n : Node) : bool :=
  match n with
  | NExpr (ECallExpr
             (ESelectorExpr (ECallExpr (EIdent omega) _ [_] _ _) sel) _ [_] _ _) =>
    oneOf (Name omega) [Omega; Expect] &&
    oneOf (Name sel) [Should; ShouldNot; To; ToNot; NotTo]
  | _ => false
  end.

(** The expected matcher by the decision table of the nilness engine. *)
Definition expectedBySpec (errorCapable subjectIsCall : bool) : KnownMatcher :=
  match errorCapable, subjectIsCall with
  | true, true => Succeed
  | true, false => HaveOccurred
  | false, _ => IsNil
  end.

(** A zero-argument call of a plain identifier with one of the three
    nilness matcher names. *)
Definition knownMatcherCall (e : Expr) : bool :=
  match e with
  | ECallExpr (EIdent callee) _ [] _ _ =>
    oneOf (Name callee) ["BeNil"; "HaveOccurred"; "Succeed"]
  | _ => false
  end.

(** ** Applying a suggested fix

    The host replaces the bytes in [te_Pos, te_End) by [NewText].  The
    edits the linter suggests cover exactly one identifier each, so on
    the tree a fix renames identifiers: the comparator and the callee of
    the matcher take the text of the first edit of the fix that covers
    them (all edits of one fix are resolved against the original
    positions).  The positions of later tokens move with the lengths;
    they are left as they are, no check reads them. *)

Definition covers (edit : TextEdit) (id : Ident) : bool :=
  (te_Pos edit =? Ident_Pos id) && (te_End edit =? Ident_End id).

Definition renamed (edits : list TextEdit) (id : Ident) : Ident :=
  match find (fun edit => covers edit id) edits with
  | Some edit => {| NamePos := NamePos id; Name := NewText edit |}
  | None => id
  end.

Definition renamedCallee (edits : list TextEdit) (e : Expr) : Expr :=
  match e with
  | ECallExpr (EIdent callee) lparen args ellipsis rparen =>
    ECallExpr (EIdent (renamed edits callee)) lparen args ellipsis rparen
  | _ => e
  end.

Definition applyFix (fix_ : SuggestedFix) (n : Node) : Node :=
  match n with
  | NExpr (ECallExpr (ESelectorExpr x sel) lparen args ellipsis rparen) =>
    NExpr (ECallExpr (ESelectorExpr x (renamed (TextEdits fix_) sel)) lparen
             (map (renamedCallee (TextEdits fix_)) args) ellipsis rparen)
  | _ => n
  end.

(** ** Passes and fixes, for stating what a run leaves behind *)

(** A pass over no files that has reported nothing yet. *)
Definition fresh (info : types_Info) : Pass :=
  {| Files := []; TypesInfo := info; Reported := [] |}.

(** The pass after some more calls of [pass.Report]. *)
Definition extend (pass : Pass) (news : list Diagnostic) : Pass :=
  {| Files := Files pass; TypesInfo := TypesInfo pass;
     Reported := Reported pass ++ news |}.

(** Several fixes applied one after the other. *)
Definition applyFixes (fixes : list SuggestedFix) (n : Node) : Node :=
  fold_left (fun node fix_ => applyFix fix_ node) fixes n.

(** Whether the matcher recognizes a node. *)
Definition recognizes (n : Node) : bool :=
  match getAssertion n with
  | Ok (Some _) => true
  | _ => false
  end.

(** ** Sample trees *)

Definition ident (pos : Pos) (name : string) : Expr :=
  EIdent {| NamePos := pos; Name := name |}.

(** [wrapper(args...).comparator(matcher())], laid out from offset 10. *)
Definition sampleCall (wrapper : string) (wrapperArgs : list Expr)
    (comparator matcher : string) : Node :=
  NExpr (ECallExpr
           (ESelectorExpr (ECallExpr (ident 10 wrapper) 16 wrapperArgs 0 20)
                          {| NamePos := 22; Name := comparator |})
           31 [ECallExpr (ident 32 matcher) 44 [] 0 45] 0 46).

(** Types are [true] for an error type and [false] for any other; the
    identifier [err] and every call have an error type. *)
Definition sampleInfo : types_Info :=
  {| GoType := bool;
     Types_Type := fun e =>
       match e with
       | EIdent id => (Name id =? "err")%string
       | ECallExpr _ _ _ _ _ => true
       | _ => false
       end;
     Implements_errorInterface := fun t => t |}.

Definition samplePass : Pass :=
  {| Files := []; TypesInfo := sampleInfo; Reported := [] |}.

(** [Expect(err).Should(BeNil())] with [err] of an error type, as
    recognized. *)
Definition sampleErrShouldBeNil : assertion :=
  {| CallExpr :=
       ECallExpr
         (ESelectorExpr (ECallExpr (ident 10 "Expect") 16 [ident 17 "err"] 0 20)
                        {| NamePos := 22; Name := "Should" |})
         31 [ECallExpr (ident 32 "BeNil") 44 [] 0 45] 0 46;
     a_Omega := {| NamePos := 10; Name := "Expect" |};
     Subject := ident 17 "err";
     a_Should := {| NamePos := 22; Name := "Should" |};
     Matcher := ECallExpr (ident 32 "BeNil") 44 [] 0 45;
     Negated := false |}.

(** [Expect(x).Should(BeNil())] with [x] of no error type, as
    recognized. *)
Definition sampleXShouldBeNil : assertion :=
  {| CallExpr :=
       ECallExpr
         (ESelectorExpr (ECallExpr (ident 10 "Expect") 16 [ident 17 "x"] 0 20)
                        {| NamePos := 22; Name := "Should" |})
         31 [ECallExpr (ident 32 "BeNil") 44 [] 0 45] 0 46;
     a_Omega := {| NamePos := 10; Name := "Expect" |};
     Subject := ident 17 "x";
     a_Should := {| NamePos := 22; Name := "Should" |};
     Matcher := ECallExpr (ident 32 "BeNil") 44 [] 0 45;
     Negated := false |}.

(** [Expect(x).To(MyCustomMatcher())], as recognized. *)
Definition sampleCustomMatcher : assertion :=
  {| CallExpr :=
       ECallExpr
         (ESelectorExpr (ECallExpr (ident 10 "Expect") 16 [ident 17 "x"] 0 20)
                        {| NamePos := 22; Name := "To" |})
         31 [ECallExpr (ident 32 "MyCustomMatcher") 44 [] 0 45] 0 46;
     a_Omega := {| NamePos := 10; Name := "Expect" |};
     Subject := ident 17 "x";
     a_Should := {| NamePos := 22; Name := "To" |};
     Matcher := ECallExpr (ident 32 "MyCustomMatcher") 44 [] 0 45;
     Negated := false |}.

(** Two files: a statement with [Expect(err).Should(BeNil())] in it, and
    the bare call [Omega(x).To(BeNil())]. *)
Definition sampleFiles : list File :=
  [ [NOther; sampleCall "Expect" [ident 17 "err"] "Should" "BeNil"; NNil; NNil];
    [sampleCall Omega [ident 17 "x"] "To" "BeNil"; NNil] ].

Definition sampleRunPass : Pass :=
  {| Files := sampleFiles; TypesInfo := sampleInfo; Reported := [] |}.

(** An assertion value that no tree gives: the wrapper is spelt in lower
    case. *)
Definition sampleLowerCaseWrapper : assertion :=
  {| CallExpr := EOther 0 0;
     a_Omega := {| NamePos := 0; Name := "expect" |};
     Subject := ident 17 "err";
     a_Should := {| NamePos := 0; Name := "To" |};
     Matcher := ECallExpr (ident 32 "BeNil") 44 [] 0 45;
     Negated := false |}.

(** * Properties *)

(** ** Names *)

Lemma oneOf_In (s : string) (cases : list string) :
  oneOf s cases = true <-> In s cases.
Proof.
  induction cases as [|c rest IH]; simpl.
  - split; [discriminate | tauto].
  - rewrite orb_true_iff, IH, String.eqb_eq. split; intros [H|H]; auto.
Qed.

Lemma comparatorNegated_cases (name : string) (negated : bool) :
  comparatorNegated name = Some negated ->
  (negated = false /\ (name = Should \/ name = To)) \/
  (negated = true /\ (name = ShouldNot \/ name = ToNot \/ name = NotTo)).
Proof.
  unfold comparatorNegated.
  destruct (oneOf name [Should; To]) eqn:E1.
  - intros [= <-]. left. apply oneOf_In in E1. simpl in E1. intuition.
  - destruct (oneOf name [ShouldNot; ToNot; NotTo]) eqn:E2; [|discriminate].
    intros [= <-]. right. apply oneOf_In in E2. simpl in E2. intuition.
Qed.

Lemma comparatorNegated_known (name : string) :
  oneOf name [Should; ShouldNot; To; ToNot; NotTo] = true <->
  exists negated, comparatorNegated name = Some negated.
Proof.
  rewrite oneOf_In. split.
  - simpl. intros [H|[H|[H|[H|[H|[]]]]]]; subst name;
      eexists; vm_compute; reflexivity.
  - intros [negated H]. apply comparatorNegated_cases in H. simpl.
    intuition.
Qed.

(** ** The matcher, inverted *)

(** Whatever [getAssertion] recognizes is a call of a selector on a call of
    an identifier, with known names and a single matcher argument; of the
    wrapper's arguments only the first is looked at. *)
Lemma getAssertion_inv (n : Node) (ass : assertion) :
  getAssertion n = Ok (Some ass) ->
  exists omega olparen subject more oellipsis orparen sel lparen matcher
         ellipsis rparen,
    n = NExpr (ECallExpr
                 (ESelectorExpr
                    (ECallExpr (EIdent omega) olparen (subject :: more)
                               oellipsis orparen) sel)
                 lparen [matcher] ellipsis rparen) /\
    In (Name omega) [Omega; Expect] /\
    comparatorNegated (Name sel) = Some (Negated ass) /\
    ass = {| CallExpr := ECallExpr
                 (ESelectorExpr
                    (ECallExpr (EIdent omega) olparen (subject :: more)
                               oellipsis orparen) sel)
                 lparen [matcher] ellipsis rparen;
             a_Omega := omega; Subject := subject; a_Should := sel;
             Matcher := matcher; Negated := Negated ass |}.
Proof.
  unfold getAssertion.
  destruct n as [e| |]; try discriminate.
  destruct e as [|callFun lparen callArgs ellipsis rparen| |]; try discriminate.
  destruct callFun as [| | x sel|];
    try (destruct (negb _); discriminate).
  destruct x as [|omegaFun olparen omegaArgs oellipsis orparen| |];
    try (destruct (negb _); discriminate).
  destruct omegaFun as [omega| | |];
    try (destruct (negb _); discriminate).
  destruct (oneOf (Name omega) [Omega; Expect]) eqn:Eomega;
    [|destruct (negb _); discriminate].
  destruct (comparatorNegated (Name sel)) as [negated|] eqn:Esel;
    [|destruct (negb _); discriminate].
  destruct callArgs as [|matcher [|]]; try discriminate.
  destruct omegaArgs as [|subject more]; try discriminate.
  cbn. intros [= <-]. cbn [Negated].
  exists omega, olparen, subject, more, oellipsis, orparen, sel, lparen,
    matcher, ellipsis, rparen.
  split; [reflexivity|]. split; [exact (proj1 (oneOf_In _ _) Eomega)|].
  split; [assumption | reflexivity].
Qed.

Lemma recognized_names (n : Node) (ass : assertion) :
  getAssertion n = Ok (Some ass) ->
  In (Name (a_Omega ass)) [Omega; Expect] /\
  comparatorNegated (Name (a_Should ass)) = Some (Negated ass).
Proof.
  intros H. apply getAssertion_inv in H.
  destruct H as (omega & ? & ? & ? & ? & ? & sel & ? & ? & ? & ? & _ & Ho & Hs & ->).
  simpl. auto.
Qed.

(** ** Styles and tokens *)

Lemma getStyle_wrapper (name : string) :
  In name [Omega; Expect] ->
  exists style, getStyle name = Ok style /\
                (style = ShouldStyle \/ style = ExpectStyle).
Proof.
  simpl. intros [<-|[<-|[]]]; eexists; split;
    try (vm_compute; reflexivity); auto.
Qed.

Lemma getStyle_comparator (name : string) (negated : bool) :
  comparatorNegated name = Some negated ->
  exists style, getStyle name = Ok style /\
                (style = ShouldStyle \/ style = ExpectStyle).
Proof.
  intros H. apply comparatorNegated_cases in H.
  destruct H as [[_ [->| ->]] | [_ [->|[->| ->]]]]; eexists; split;
    try (vm_compute; reflexivity); auto.
Qed.

Lemma renderInStyle_roundtrip (style : Style) (negated : bool) :
  style = ShouldStyle \/ style = ExpectStyle ->
  exists token, renderInStyle style negated = Ok token /\
                getStyle token = Ok style /\
                comparatorNegated token = Some negated.
Proof.
  intros [->| ->]; destruct negated; eexists;
    (split; [|split]); vm_compute; reflexivity.
Qed.

(** ** The matcher kind *)

Lemma getKnownMatcher_cases (ass : assertion) :
  (exists callee lparen ellipsis rparen,
     Matcher ass = ECallExpr (EIdent callee) lparen [] ellipsis rparen /\
     In (Name callee) [IsNil; HaveOccurred; Succeed] /\
     getKnownMatcher ass = (Some callee, Name callee)) \/
  (knownMatcherCall (Matcher ass) = false /\
   getKnownMatcher ass = (None, UnknownMatcher)).
Proof.
  unfold getKnownMatcher.
  destruct (Matcher ass) as [|callFun lparen callArgs ellipsis rparen| |];
    try (right; split; reflexivity).
  destruct callArgs as [|arg rest].
  - destruct callFun as [callee| | |]; try (right; split; reflexivity).
    cbn [List.length Nat.eqb negb knownMatcherCall].
    change ["BeNil"; "HaveOccurred"; "Succeed"]
      with [IsNil; HaveOccurred; Succeed].
    destruct (oneOf (Name callee) [IsNil; HaveOccurred; Succeed]) eqn:E.
    + left. exists callee, lparen, ellipsis, rparen.
      split; [reflexivity|]. split; [|reflexivity]. now apply oneOf_In.
    + right. split; reflexivity.
  - right. split; [|reflexivity].
    destruct callFun; reflexivity.
Qed.

(** ** The nilness check, case by case *)

Lemma checkNilnessAssertions_cases (n : Node) (ass : assertion) (pass : Pass) :
  getAssertion n = Ok (Some ass) ->
  let actual := snd (getKnownMatcher ass) in
  let expected := expectedBySpec (isErrorExpr (Subject ass) (TypesInfo pass))
                                 (isCallExpr (Subject ass)) in
  let invert := negb (Bool.eqb (matchesNil actual) (matchesNil expected)) in
  if ((actual =? UnknownMatcher) || (actual =? expected))%string
  then checkNilnessAssertions ass pass = Ok (false, pass)
  else exists callee lparen ellipsis rparen style token,
    Matcher ass = ECallExpr (EIdent callee) lparen [] ellipsis rparen /\
    Name callee = actual /\
    getStyle (Name (a_Omega ass)) = Ok style /\
    renderInStyle style (negb (Negated ass)) = Ok token /\
    checkNilnessAssertions ass pass =
      Ok (invert,
          Report pass
            {| d_Pos := assertion_Pos ass;
               d_End := assertion_End ass;
               Message := "unidiomatic matcher: consider using " ++ expected ++
                          " instead of " ++ actual ++ " in this assertion";
               SuggestedFixes :=
                 [ {| sf_Message :=
                        "change matcher to " ++ expected ++
                        (if invert then " and invert the assertion" else "");
                      TextEdits :=
                        {| te_Pos := Ident_Pos callee;
                           te_End := Ident_End callee;
                           NewText := expected |} ::
                        (if invert
                         then [ {| te_Pos := Ident_Pos (a_Should ass);
                                   te_End := Ident_End (a_Should ass);
                                   NewText := token |} ]
                         else []) |} ] |}).
Proof.
  intros H.
  destruct (getKnownMatcher_cases ass) as
    [(callee & lparen & ellipsis & rparen & Hm & Hn & Hk) | [_ Hk]].
  2: { unfold checkNilnessAssertions. rewrite Hk. reflexivity. }
  unfold checkNilnessAssertions. rewrite Hk. cbn [snd].
  destruct (getStyle_wrapper _ (proj1 (recognized_names _ _ H)))
    as (style & Hstyle & Hrange).
  destruct (renderInStyle_roundtrip style (negb (Negated ass)) Hrange)
    as (token & Htoken & _ & _).
  assert (Hnames : forall e c, expectedBySpec e c =
            if e then if c then Succeed else HaveOccurred else IsNil)
    by (intros [] []; reflexivity).
  rewrite Hnames.
  set (expected := if isErrorExpr (Subject ass) (TypesInfo pass)
                   then if isCallExpr (Subject ass) then Succeed else HaveOccurred
                   else IsNil).
  assert (Hexp : In expected [IsNil; HaveOccurred; Succeed]).
  { unfold expected. simpl.
    destruct (isErrorExpr _ _); [destruct (isCallExpr _)|]; auto. }
  clearbody expected.
  simpl in Hn, Hexp.
  destruct Hn as [Hn|[Hn|[Hn|[]]]]; symmetry in Hn; rewrite !Hn;
    destruct Hexp as [He|[He|[He|[]]]]; subst expected;
    unfold matchesNil; unfold IsNil, HaveOccurred, Succeed, UnknownMatcher;
    cbn [String.eqb Ascii.eqb Bool.eqb orb negb];
    try reflexivity.
  all: exists callee, lparen, ellipsis, rparen, style, token.
  all: split; [exact Hm|]; split; [exact Hn|];
         split; [exact Hstyle|]; split; [exact Htoken|].
  all: cbn [deref bind]; rewrite ?Hstyle; cbn [bind].
  all: try (destruct (Negated ass); cbn [Bool.eqb negb] in *; rewrite Htoken).
  all: reflexivity.
Qed.

(** ** The style check, case by case *)

Lemma checkStyle_cases (n : Node) (ass : assertion) (pass : Pass)
    (emitFixes : bool) :
  getAssertion n = Ok (Some ass) ->
  exists wrapperStyle comparatorStyle token,
    getStyle (Name (a_Omega ass)) = Ok wrapperStyle /\
    getStyle (Name (a_Should ass)) = Ok comparatorStyle /\
    renderInStyle wrapperStyle (Negated ass) = Ok token /\
    getStyle token = Ok wrapperStyle /\
    comparatorNegated token = Some (Negated ass) /\
    checkStyle ass pass emitFixes =
      if wrapperStyle =? comparatorStyle then Ok pass
      else Ok (Report pass
                 {| d_Pos := assertion_Pos ass;
                    d_End := assertion_End ass;
                    Message := "inconsistent assertion style (" ++
                               Name (a_Omega ass) ++ " + " ++
                               Name (a_Should ass) ++ ")";
                    SuggestedFixes :=
                      if emitFixes
                      then [ {| sf_Message := "change " ++ Name (a_Should ass) ++
                                              " to " ++ token;
                                TextEdits :=
                                  [ {| te_Pos := Ident_Pos (a_Should ass);
                                       te_End := Ident_End (a_Should ass);
                                       NewText := token |} ] |} ]
                      else [] |}).
Proof.
  intros H. destruct (recognized_names _ _ H) as [Hw Hc].
  destruct (getStyle_wrapper _ Hw) as (ws & Hws & Hrange).
  destruct (getStyle_comparator _ _ Hc) as (cs & Hcs & _).
  destruct (renderInStyle_roundtrip ws (Negated ass) Hrange)
    as (token & Htoken & Hback & Hneg).
  exists ws, cs, token. repeat (split; [assumption|]).
  unfold checkStyle. rewrite Hws, Hcs. cbn [bind].
  destruct (ws =? cs); [reflexivity|].
  destruct emitFixes; cbn [bind]; [rewrite Htoken|]; reflexivity.
Qed.

(** ** The matcher on a tree of the right outline *)

Lemma getAssertion_shape (omega sel : Ident) (subject matcher : Expr)
    (more : list Expr) (olparen oellipsis orparen lparen ellipsis rparen : Pos)
    (negated : bool) :
  In (Name omega) [Omega; Expect] ->
  comparatorNegated (Name sel) = Some negated ->
  let call := ECallExpr
                (ESelectorExpr
                   (ECallExpr (EIdent omega) olparen (subject :: more)
                              oellipsis orparen) sel)
                lparen [matcher] ellipsis rparen in
  getAssertion (NExpr call) =
    Ok (Some {| CallExpr := call; a_Omega := omega; Subject := subject;
                a_Should := sel; Matcher := matcher; Negated := negated |}).
Proof.
  intros Hw Hc. apply oneOf_In in Hw.
  unfold getAssertion. cbn [List.length Nat.eqb negb].
  rewrite Hw, Hc. reflexivity.
Qed.

(** The matcher panics on no other ground than the empty argument list of
    the wrapper call. *)
Lemma getAssertion_panic (n : Node) (msg : string) :
  getAssertion n = Panic msg ->
  msg = "runtime error: index out of range" /\
  exists omega olparen oellipsis orparen sel lparen matcher ellipsis rparen,
    n = NExpr (ECallExpr
                 (ESelectorExpr
                    (ECallExpr (EIdent omega) olparen [] oellipsis orparen) sel)
                 lparen [matcher] ellipsis rparen).
Proof.
  unfold getAssertion.
  destruct n as [e| |]; try discriminate.
  destruct e as [|callFun lparen callArgs ellipsis rparen| |]; try discriminate.
  destruct callFun as [| | x sel|];
    try (destruct (negb _); discriminate).
  destruct x as [|omegaFun olparen omegaArgs oellipsis orparen| |];
    try (destruct (negb _); discriminate).
  destruct omegaFun as [omega| | |];
    try (destruct (negb _); discriminate).
  destruct (oneOf (Name omega) [Omega; Expect]);
    [|destruct (negb _); discriminate].
  destruct (comparatorNegated (Name sel)) as [negated|];
    [|destruct (negb _); discriminate].
  destruct callArgs as [|matcher [|]]; try discriminate.
  destruct omegaArgs as [|subject more]; try discriminate.
  cbn. intros [= <-]. split; [reflexivity|].
  exists omega, olparen, oellipsis, orparen, sel, lparen, matcher, ellipsis,
    rparen. reflexivity.
Qed.

(** Every tree of the specified shape is recognized. *)
Lemma getAssertion_complete (n : Node) :
  assertionShaped n = true -> exists ass, getAssertion n = Ok (Some ass).
Proof.
  destruct n as [e| |]; try discriminate.
  destruct e as [|callFun lparen callArgs ellipsis rparen| |]; try discriminate.
  destruct callFun as [| | x sel|]; try discriminate.
  destruct x as [|omegaFun olparen omegaArgs oellipsis orparen| |];
    try discriminate.
  destruct omegaFun as [omega| | |]; try discriminate.
  destruct omegaArgs as [|subject [|]]; try discriminate.
  destruct callArgs as [|matcher [|]]; try discriminate.
  unfold assertionShaped. rewrite andb_true_iff. intros [Hw Hc].
  apply oneOf_In in Hw. apply comparatorNegated_known in Hc.
  destruct Hc as [negated Hc]. eexists.
  apply (getAssertion_shape omega sel subject matcher []); eassumption.
Qed.

(** What is recognized has the specified shape, but for the number of
    arguments of the wrapper call, which is one or more. *)
Lemma getAssertion_sound_but_wrapper_arity (n : Node) (ass : assertion) :
  getAssertion n = Ok (Some ass) ->
  exists omega olparen subject more oellipsis orparen sel lparen matcher
         ellipsis rparen,
    n = NExpr (ECallExpr
                 (ESelectorExpr
                    (ECallExpr (EIdent omega) olparen (subject :: more)
                               oellipsis orparen) sel)
                 lparen [matcher] ellipsis rparen) /\
    assertionShaped
      (NExpr (ECallExpr
                (ESelectorExpr
                   (ECallExpr (EIdent omega) olparen [subject]
                              oellipsis orparen) sel)
                lparen [matcher] ellipsis rparen)) = true.
Proof.
  intros H. apply getAssertion_inv in H.
  destruct H as (omega & olparen & subject & more & oellipsis & orparen & sel
                 & lparen & matcher & ellipsis & rparen & -> & Hw & Hc & _).
  exists omega, olparen, subject, more, oellipsis, orparen, sel, lparen,
    matcher, ellipsis, rparen.
  split; [reflexivity|]. unfold assertionShaped.
  apply andb_true_iff. split; [now apply oneOf_In|].
  apply comparatorNegated_known. eauto.
Qed.

(** ** A fix applied to a recognized assertion *)

Lemma applyFix_comparator (n : Node) (ass : assertion) (fix_ : SuggestedFix)
    (edit : TextEdit) (negated : bool) :
  getAssertion n = Ok (Some ass) ->
  find (fun e => covers e (a_Should ass)) (TextEdits fix_) = Some edit ->
  comparatorNegated (NewText edit) = Some negated ->
  exists ass',
    getAssertion (applyFix fix_ n) = Ok (Some ass') /\
    a_Omega ass' = a_Omega ass /\
    Subject ass' = Subject ass /\
    a_Should ass' = {| NamePos := NamePos (a_Should ass);
                       Name := NewText edit |} /\
    Negated ass' = negated.
Proof.
  intros H Hfind Hneg. apply getAssertion_inv in H.
  destruct H as (omega & olparen & subject & more & oellipsis & orparen & sel
                 & lparen & matcher & ellipsis & rparen & -> & Hw & _ & Hass).
  assert (Ho : a_Omega ass = omega) by (rewrite Hass; reflexivity).
  assert (Hj : Subject ass = subject) by (rewrite Hass; reflexivity).
  assert (Hs : a_Should ass = sel) by (rewrite Hass; reflexivity).
  rewrite Ho, Hj, Hs. rewrite Hs in Hfind.
  unfold applyFix, renamed. rewrite Hfind. cbn [map].
  eexists. split.
  - apply getAssertion_shape; [exact Hw | exact Hneg].
  - repeat split.
Qed.

Lemma checkStyle_silent (ass : assertion) (style : Style) :
  getStyle (Name (a_Omega ass)) = Ok style ->
  getStyle (Name (a_Should ass)) = Ok style ->
  forall (pass : Pass) (emitFixes : bool), checkStyle ass pass emitFixes = Ok pass.
Proof.
  intros Hw Hc pass emitFixes. unfold checkStyle.
  rewrite Hw, Hc. cbn [bind]. rewrite Z.eqb_refl. reflexivity.
Qed.

(** ** The visit and the driver never reach the panics of the style code *)

Lemma checkNilnessAssertions_returns (n : Node) (ass : assertion) (pass : Pass) :
  getAssertion n = Ok (Some ass) ->
  exists emitted pass', checkNilnessAssertions ass pass = Ok (emitted, pass').
Proof.
  intros H.
  pose proof (checkNilnessAssertions_cases n ass pass H) as C.
  cbv zeta in C. destruct ((_ =? UnknownMatcher) || _)%string.
  - eauto.
  - destruct C as (? & ? & ? & ? & ? & ? & _ & _ & _ & _ & Hrun). eauto.
Qed.

Lemma checkStyle_returns (n : Node) (ass : assertion) (pass : Pass)
    (emitFixes : bool) :
  getAssertion n = Ok (Some ass) ->
  exists pass', checkStyle ass pass emitFixes = Ok pass'.
Proof.
  intros H.
  destruct (checkStyle_cases n ass pass emitFixes H)
    as (ws & cs & token & _ & _ & _ & _ & _ & Hrun).
  rewrite Hrun. destruct (ws =? cs); eauto.
Qed.

Lemma visit_returns (n : Node) (ass : assertion) (pass : Pass) :
  getAssertion n = Ok (Some ass) -> exists pass', visit pass n = Ok pass'.
Proof.
  intros H. unfold visit. rewrite H. cbn [bind].
  destruct (checkNilnessAssertions_returns n ass pass H)
    as (emitted & pass1 & ->). cbn [bind].
  exact (checkStyle_returns n ass pass1 (negb emitted) H).
Qed.

Lemma visit_panic (n : Node) (pass : Pass) (msg : string) :
  visit pass n = Panic msg -> msg = "runtime error: index out of range".
Proof.
  destruct (getAssertion n) as [[ass|]|msg'] eqn:H.
  - destruct (visit_returns n ass pass H) as (pass' & ->). discriminate.
  - unfold visit. rewrite H. discriminate.
  - unfold visit. rewrite H. cbn [bind]. intros [= <-].
    exact (proj1 (getAssertion_panic n msg' H)).
Qed.

Lemma inspect_panic (nodes : File) (pass : Pass) (msg : string) :
  inspect nodes pass = Panic msg -> msg = "runtime error: index out of range".
Proof.
  revert pass. induction nodes as [|n rest IH]; intros pass; cbn [inspect].
  - discriminate.
  - destruct (visit pass n) as [pass1|msg'] eqn:Hvisit; cbn [bind].
    + apply IH.
    + intros [= <-]. exact (visit_panic n pass msg' Hvisit).
Qed.

Lemma inspectFiles_panic (files : list File) (pass : Pass) (msg : string) :
  inspectFiles files pass = Panic msg ->
  msg = "runtime error: index out of range".
Proof.
  revert pass. induction files as [|file rest IH]; intros pass;
    cbn [inspectFiles].
  - discriminate.
  - destruct (inspect file pass) as [pass1|msg'] eqn:Hfile; cbn [bind].
    + apply IH.
    + intros [= <-]. exact (inspect_panic file pass msg' Hfile).
Qed.

(** * The claims *)

(** ** C1 *)

(** C1.  The claim: every node that is not of the shape
    Wrapper(Subject).Comparator(Matcher) with known names and exactly one
    argument at each call layer is answered with no match.  The code tests
    the length of the outer argument list twice and never the inner one:
    [Expect(a, b).Should(BeNil())] is not of the shape, and is recognized
    with [a] as its subject. *)
Theorem getAssertion_recognizes_two_wrapper_arguments :
  let n := sampleCall "Expect" [ident 17 "a"; ident 19 "b"] "Should" "BeNil" in
  assertionShaped n = false /\
  exists ass, getAssertion n = Ok (Some ass) /\ Subject ass = ident 17 "a".
Proof.
  split; [reflexivity|]. eexists. split; reflexivity.
Qed.

(** ** C2 *)

(** C2.  The claim: [getAssertion] never fails abruptly, and answers no
    match for a wrapper call without arguments.  On
    [Expect().Should(BeNil())] the code reaches [omegaCall.Args[0]] with an
    empty slice and panics, and so does the visit of that node. *)
Theorem getAssertion_panics_without_wrapper_argument :
  let n := sampleCall "Expect" [] "Should" "BeNil" in
  getAssertion n = Panic "runtime error: index out of range" /\
  visit samplePass n = Panic "runtime error: index out of range".
Proof.
  split; reflexivity.
Qed.

(** ** C3 *)

(** C3.  For a recognized assertion whose matcher is a known one, the
    expected matcher is Succeed for an error-typed call, HaveOccurred for
    any other error-typed subject, BeNil otherwise.  When the actual
    matcher is the expected one the pass is left as it was; otherwise
    exactly one diagnostic is appended, with the message "unidiomatic
    matcher: consider using <expected> instead of <actual> in this
    assertion" and one fix whose first edit covers the callee of the
    matcher and carries the name of the expected matcher. *)
Theorem checkNilnessAssertions_expected_matcher
    (n : Node) (ass : assertion) (pass : Pass) :
  getAssertion n = Ok (Some ass) ->
  snd (getKnownMatcher ass) <> UnknownMatcher ->
  let actual := snd (getKnownMatcher ass) in
  let expected := expectedBySpec (isErrorExpr (Subject ass) (TypesInfo pass))
                                 (isCallExpr (Subject ass)) in
  (actual = expected -> checkNilnessAssertions ass pass = Ok (false, pass)) /\
  (actual <> expected ->
   exists callee lparen ellipsis rparen emitted fixMessage moreEdits,
     Matcher ass = ECallExpr (EIdent callee) lparen [] ellipsis rparen /\
     checkNilnessAssertions ass pass =
       Ok (emitted,
           {| Files := Files pass; TypesInfo := TypesInfo pass;
              Reported := Reported pass ++
                [ {| d_Pos := assertion_Pos ass;
                     d_End := assertion_End ass;
                     Message := "unidiomatic matcher: consider using " ++
                                expected ++ " instead of " ++ actual ++
                                " in this assertion";
                     SuggestedFixes :=
                       [ {| sf_Message := fixMessage;
                            TextEdits :=
                              {| te_Pos := Ident_Pos callee;
                                 te_End := Ident_End callee;
                                 NewText := expected |} :: moreEdits |} ]
                  |} ] |})).
Proof.
  intros H Hknown actual expected.
  pose proof (checkNilnessAssertions_cases n ass pass H) as C.
  cbv zeta in C. fold actual expected in C.
  apply String.eqb_neq in Hknown. fold actual in Hknown.
  rewrite Hknown in C. cbn [orb] in C.
  split; intros Hcmp.
  - apply String.eqb_eq in Hcmp. rewrite Hcmp in C. exact C.
  - apply String.eqb_neq in Hcmp. rewrite Hcmp in C.
    destruct C as (callee & lparen & ellipsis & rparen & style & token
                   & Hm & _ & _ & _ & Hrun).
    exists callee, lparen, ellipsis, rparen. do 3 eexists.
    split; [exact Hm|]. exact Hrun.
Qed.

Lemma checkNilnessAssertions_expected_matcher_witness :
  getAssertion (sampleCall "Expect" [ident 17 "err"] "Should" "BeNil") =
    Ok (Some sampleErrShouldBeNil) /\
  snd (getKnownMatcher sampleErrShouldBeNil) <> UnknownMatcher /\
  exists emitted pass',
    checkNilnessAssertions sampleErrShouldBeNil samplePass =
      Ok (emitted, pass') /\
    map Message (Reported pass') =
      ["unidiomatic matcher: consider using HaveOccurred instead of BeNil in this assertion"].
Proof.
  split; [reflexivity|]. split; [discriminate|].
  destruct (checkNilnessAssertions_expected_matcher
              (sampleCall "Expect" [ident 17 "err"] "Should" "BeNil")
              sampleErrShouldBeNil samplePass eq_refl)
    as [_ Hdiff]; [discriminate|].
  destruct Hdiff as (callee & lparen & ellipsis & rparen & emitted & fixMessage
                     & moreEdits & _ & Hrun); [discriminate|].
  do 2 eexists. split; [exact Hrun|]. reflexivity.
Defined.

(** ** C4 *)

(** C4.  BeNil and Succeed match nil, HaveOccurred does not.  When the
    nilness check reports, the fix gets a second edit exactly when the
    actual and the expected matcher differ in that polarity: the edit
    covers the comparator and carries the token of the wrapper's style
    with the negation of the assertion flipped; the message of the fix
    then ends in " and invert the assertion"; and the boolean handed back
    is true in exactly that case.  When nothing is reported the boolean
    is false. *)
Theorem checkNilnessAssertions_inverts_by_polarity :
  (matchesNil IsNil = true /\ matchesNil Succeed = true /\
   matchesNil HaveOccurred = false) /\
  forall (n : Node) (ass : assertion) (pass : Pass),
    getAssertion n = Ok (Some ass) ->
    let actual := snd (getKnownMatcher ass) in
    let expected := expectedBySpec (isErrorExpr (Subject ass) (TypesInfo pass))
                                   (isCallExpr (Subject ass)) in
    let differ := negb (Bool.eqb (matchesNil actual) (matchesNil expected)) in
    (actual = UnknownMatcher \/ actual = expected ->
     checkNilnessAssertions ass pass = Ok (false, pass)) /\
    (actual <> UnknownMatcher -> actual <> expected ->
     exists style token matcherEdit,
       getStyle (Name (a_Omega ass)) = Ok style /\
       renderInStyle style (negb (Negated ass)) = Ok token /\
       getStyle token = Ok style /\
       comparatorNegated token = Some (negb (Negated ass)) /\
       checkNilnessAssertions ass pass =
         Ok (differ,
             Report pass
               {| d_Pos := assertion_Pos ass;
                  d_End := assertion_End ass;
                  Message := "unidiomatic matcher: consider using " ++
                             expected ++ " instead of " ++ actual ++
                             " in this assertion";
                  SuggestedFixes :=
                    [ {| sf_Message :=
                           "change matcher to " ++ expected ++
                           (if differ then " and invert the assertion" else "");
                         TextEdits :=
                           matcherEdit ::
                           (if differ
                            then [ {| te_Pos := Ident_Pos (a_Should ass);
                                      te_End := Ident_End (a_Should ass);
                                      NewText := token |} ]
                            else []) |} ] |})).
Proof.
  split; [repeat split|].
  intros n ass pass H actual expected differ.
  pose proof (checkNilnessAssertions_cases n ass pass H) as C.
  cbv zeta in C. fold actual expected differ in C.
  split.
  - intros Hsame.
    assert (E : ((actual =? UnknownMatcher) || (actual =? expected))%string = true).
    { apply orb_true_iff. rewrite !String.eqb_eq. exact Hsame. }
    rewrite E in C. exact C.
  - intros Hknown Hcmp.
    apply String.eqb_neq in Hknown, Hcmp. rewrite Hknown, Hcmp in C.
    cbn [orb] in C.
    destruct C as (callee & lparen & ellipsis & rparen & style & token
                   & _ & _ & Hstyle & Htoken & Hrun).
    destruct (getStyle_wrapper _ (proj1 (recognized_names _ _ H)))
      as (style' & Hstyle' & Hrange).
    assert (style' = style) by congruence. subst style'.
    destruct (renderInStyle_roundtrip style (negb (Negated ass)) Hrange)
      as (token' & Htoken' & Hback & Hneg).
    assert (token' = token) by congruence. subst token'.
    exists style, token. eexists.
    repeat (split; [eassumption|]). exact Hrun.
Qed.

Lemma checkNilnessAssertions_inverts_by_polarity_witness :
  getAssertion (sampleCall "Expect" [ident 17 "err"] "Should" "BeNil") =
    Ok (Some sampleErrShouldBeNil) /\
  snd (getKnownMatcher sampleErrShouldBeNil) <> UnknownMatcher /\
  snd (getKnownMatcher sampleErrShouldBeNil) <> HaveOccurred /\
  exists pass',
    checkNilnessAssertions sampleErrShouldBeNil samplePass = Ok (true, pass') /\
    map (fun d => map (fun f => map NewText (TextEdits f)) (SuggestedFixes d))
        (Reported pass') = [[["HaveOccurred"; "NotTo"]]].
Proof.
  split; [reflexivity|]. split; [discriminate|]. split; [discriminate|].
  destruct (proj2 checkNilnessAssertions_inverts_by_polarity
              (sampleCall "Expect" [ident 17 "err"] "Should" "BeNil")
              sampleErrShouldBeNil samplePass eq_refl)
    as [_ Hdiff].
  destruct Hdiff as (style & token & matcherEdit & Hstyle & Htoken & _ & _
                     & Hrun); [discriminate | discriminate |].
  injection Hstyle as <-. injection Htoken as <-.
  eexists. split; [exact Hrun|].
  assert (Hedit : checkNilnessAssertions sampleErrShouldBeNil samplePass =
                  checkNilnessAssertions sampleErrShouldBeNil samplePass)
    by reflexivity.
  rewrite Hrun in Hedit at 1. vm_compute in Hedit.
  injection Hedit as ->. reflexivity.
Defined.

(** ** C5 *)

(** C5.  On a recognized assertion the visit runs the nilness check first
    and the style check on the pass it leaves, told to emit fixes exactly
    when the nilness check handed back false.  That boolean is true
    exactly when the nilness check appended a diagnostic whose fix has a
    second edit covering the comparator.  The style check appends nothing
    when the styles of wrapper and comparator are equal; when they differ
    it appends one diagnostic, whatever the boolean, and that diagnostic
    has a fix (one edit: the comparator rewritten to the token of the
    wrapper's style, negation kept) exactly when the boolean is false. *)
Theorem visit_nilness_then_style (n : Node) (ass : assertion) (pass : Pass) :
  getAssertion n = Ok (Some ass) ->
  exists emittedShouldFix pass1 wrapperStyle comparatorStyle token,
    checkNilnessAssertions ass pass = Ok (emittedShouldFix, pass1) /\
    visit pass n = checkStyle ass pass1 (negb emittedShouldFix) /\
    (emittedShouldFix = true <->
     exists d fix_ matcherEdit shouldEdit,
       Reported pass1 = (Reported pass ++ [d])%list /\
       SuggestedFixes d = [fix_] /\
       TextEdits fix_ = [matcherEdit; shouldEdit] /\
       te_Pos shouldEdit = Ident_Pos (a_Should ass) /\
       te_End shouldEdit = Ident_End (a_Should ass)) /\
    getStyle (Name (a_Omega ass)) = Ok wrapperStyle /\
    getStyle (Name (a_Should ass)) = Ok comparatorStyle /\
    renderInStyle wrapperStyle (Negated ass) = Ok token /\
    (wrapperStyle = comparatorStyle -> visit pass n = Ok pass1) /\
    (wrapperStyle <> comparatorStyle ->
     visit pass n =
       Ok (Report pass1
             {| d_Pos := assertion_Pos ass;
                d_End := assertion_End ass;
                Message := "inconsistent assertion style (" ++
                           Name (a_Omega ass) ++ " + " ++
                           Name (a_Should ass) ++ ")";
                SuggestedFixes :=
                  if emittedShouldFix then []
                  else [ {| sf_Message := "change " ++ Name (a_Should ass) ++
                                          " to " ++ token;
                            TextEdits :=
                              [ {| te_Pos := Ident_Pos (a_Should ass);
                                   te_End := Ident_End (a_Should ass);
                                   NewText := token |} ] |} ] |})).
Proof.
  intros H.
  assert (Hnil : exists emitted pass1,
    checkNilnessAssertions ass pass = Ok (emitted, pass1) /\
    (emitted = true <->
     exists d fix_ matcherEdit shouldEdit,
       Reported pass1 = (Reported pass ++ [d])%list /\
       SuggestedFixes d = [fix_] /\
       TextEdits fix_ = [matcherEdit; shouldEdit] /\
       te_Pos shouldEdit = Ident_Pos (a_Should ass) /\
       te_End shouldEdit = Ident_End (a_Should ass))).
  { pose proof (checkNilnessAssertions_cases n ass pass H) as C.
    cbv zeta in C.
    destruct ((_ =? UnknownMatcher) || _)%string.
    - exists false, pass. split; [exact C|]. split; [discriminate|].
      intros (d & _ & _ & _ & Habs & _). exfalso.
      apply (f_equal (@List.length _)) in Habs.
      rewrite length_app in Habs. simpl in Habs. lia.
    - destruct C as (callee & lparen & ellipsis & rparen & style & token
                     & _ & _ & _ & _ & Hrun).
      do 2 eexists. split; [exact Hrun|].
      destruct (negb (Bool.eqb _ _)).
      + split; [intros _|reflexivity]. do 4 eexists.
        cbn [Report Reported SuggestedFixes TextEdits te_Pos te_End].
        repeat split.
      + split; [discriminate|].
        intros (d & fix_ & e1 & e2 & Hrep & Hfix & Hedits & _). exfalso.
        cbn [Report Reported] in Hrep. apply app_inv_head in Hrep.
        injection Hrep as <-. cbn [SuggestedFixes] in Hfix.
        injection Hfix as <-. discriminate Hedits. }
  destruct Hnil as (emitted & pass1 & Hrun & Hiff).
  destruct (checkStyle_cases n ass pass1 (negb emitted) H)
    as (ws & cs & token & Hws & Hcs & Htoken & _ & _ & Hstyle).
  assert (Hvisit : visit pass n = checkStyle ass pass1 (negb emitted)).
  { unfold visit. rewrite H. cbn [bind]. rewrite Hrun. reflexivity. }
  exists emitted, pass1, ws, cs, token.
  repeat (split; [assumption|]).
  rewrite Hvisit, Hstyle. split.
  - intros ->. rewrite Z.eqb_refl. reflexivity.
  - intros Hne. apply Z.eqb_neq in Hne. rewrite Hne.
    destruct emitted; reflexivity.
Qed.

Lemma visit_nilness_then_style_witness :
  getAssertion (sampleCall "Expect" [ident 17 "err"] "Should" "BeNil") =
    Ok (Some sampleErrShouldBeNil) /\
  exists pass',
    visit samplePass (sampleCall "Expect" [ident 17 "err"] "Should" "BeNil") =
      Ok pass' /\
    map (fun d => (Message d, List.length (SuggestedFixes d))) (Reported pass') =
      [("unidiomatic matcher: consider using HaveOccurred instead of BeNil in this assertion", 1%nat);
       ("inconsistent assertion style (Expect + Should)", 0%nat)].
Proof.
  split; [reflexivity|].
  destruct (visit_nilness_then_style
              (sampleCall "Expect" [ident 17 "err"] "Should" "BeNil")
              sampleErrShouldBeNil samplePass eq_refl)
    as (emitted & pass1 & ws & cs & token & Hrun & Hvisit & _).
  injection Hrun as <- <-.
  eexists. split; [exact Hvisit|]. reflexivity.
Defined.

(** ** C6 *)

(** X15.  The style check that takes the [emitFixes] flag words the
    message of every diagnostic it appends for a recognized assertion
    "inconsistent assertion style (<wrapper> + <comparator>)". *)
Lemma checkStyle_message (n : Node) (ass : assertion) (pass pass' : Pass)
    (emitFixes : bool) (d : Diagnostic) :
  getAssertion n = Ok (Some ass) ->
  checkStyle ass pass emitFixes = Ok pass' ->
  In d (Reported pass') -> ~ In d (Reported pass) ->
  Message d = "inconsistent assertion style (" ++ Name (a_Omega ass) ++
              " + " ++ Name (a_Should ass) ++ ")".
Proof.
  intros H Hrun Hin Hnew.
  destruct (checkStyle_cases n ass pass emitFixes H)
    as (ws & cs & token & _ & _ & _ & _ & _ & Hstyle).
  rewrite Hstyle in Hrun. destruct (ws =? cs).
  - injection Hrun as <-. contradiction.
  - injection Hrun as <-. cbn [Report Reported] in Hin.
    apply in_app_or in Hin. destruct Hin as [Hin|[<-|[]]];
      [contradiction | reflexivity].
Qed.

(** C6.  The claim: the message of every style diagnostic is exactly
    "inconsistent assertion style (<wrapper> + <comparator>)".  The
    [checkStyle] of src/main.go spells the first word without its second
    "n": on [Expect(err).Should(BeNil())] its one diagnostic reads
    "incosistent assertion style (Expect + Should)". *)
Theorem MainGo_checkStyle_message_misspelled :
  exists pass',
    MainGo.visit samplePass
      (sampleCall "Expect" [ident 17 "err"] "Should" "BeNil") = Ok pass' /\
    map Message (Reported pass') =
      ["incosistent assertion style (Expect + Should)"] /\
    map Message (Reported pass') <>
      ["inconsistent assertion style (Expect + Should)"].
Proof.
  eexists. split; [reflexivity|]. split; [reflexivity | discriminate].
Qed.

(** ** C7 *)

(** C7.  For either style and either negation flag the renderer yields a
    token that classifies back to that style and that the matcher reads
    with that negation flag.  Hence, when the style check appends a
    diagnostic with a fix, the fix is one edit covering the comparator;
    the tree with the fix applied is recognized again, with the same
    wrapper and the same negation, its two styles are equal, and the
    style check leaves every pass unchanged on it. *)
Theorem checkStyle_fix_roundtrip :
  (forall (style : Style) (negated : bool),
     style = ShouldStyle \/ style = ExpectStyle ->
     exists token,
       renderInStyle style negated = Ok token /\
       getStyle token = Ok style /\
       comparatorNegated token = Some negated) /\
  (forall (n : Node) (ass : assertion) (pass pass' : Pass) (emitFixes : bool)
          (d : Diagnostic) (fix_ : SuggestedFix),
     getAssertion n = Ok (Some ass) ->
     checkStyle ass pass emitFixes = Ok pass' ->
     Reported pass' = (Reported pass ++ [d])%list ->
     SuggestedFixes d = [fix_] ->
     exists token ass',
       TextEdits fix_ = [ {| te_Pos := Ident_Pos (a_Should ass);
                             te_End := Ident_End (a_Should ass);
                             NewText := token |} ] /\
       getStyle token = getStyle (Name (a_Omega ass)) /\
       comparatorNegated token = Some (Negated ass) /\
       getAssertion (applyFix fix_ n) = Ok (Some ass') /\
       a_Omega ass' = a_Omega ass /\
       Name (a_Should ass') = token /\
       Negated ass' = Negated ass /\
       getStyle (Name (a_Omega ass')) = getStyle (Name (a_Should ass')) /\
       forall (p : Pass) (b : bool), checkStyle ass' p b = Ok p).
Proof.
  split; [exact renderInStyle_roundtrip|].
  intros n ass pass pass' emitFixes d fix_ H Hrun Hrep Hfix.
  destruct (checkStyle_cases n ass pass emitFixes H)
    as (ws & cs & token & Hws & Hcs & Htoken & Hback & Hneg & Hstyle).
  rewrite Hstyle in Hrun. destruct (ws =? cs).
  { injection Hrun as <-. exfalso.
    apply (f_equal (@List.length _)) in Hrep.
    rewrite length_app in Hrep. simpl in Hrep. lia. }
  injection Hrun as <-. cbn [Report Reported] in Hrep.
  apply app_inv_head in Hrep. injection Hrep as <-.
  cbn [SuggestedFixes] in Hfix.
  destruct emitFixes; [|discriminate]. injection Hfix as <-.
  cbn [TextEdits].
  set (edit := {| te_Pos := Ident_Pos (a_Should ass);
                  te_End := Ident_End (a_Should ass); NewText := token |}).
  destruct (applyFix_comparator n ass
              {| sf_Message := "change " ++ Name (a_Should ass) ++ " to " ++ token;
                 TextEdits := [edit] |} edit (Negated ass) H)
    as (ass' & Hagain & Homega & _ & Hshould & Hnegated).
  { cbn [TextEdits find]. unfold covers, edit. cbn [te_Pos te_End].
    rewrite !Z.eqb_refl. reflexivity. }
  { exact Hneg. }
  assert (Hws' : getStyle (Name (a_Omega ass')) = Ok ws)
    by (rewrite Homega; exact Hws).
  assert (Hcs' : getStyle (Name (a_Should ass')) = Ok ws)
    by (rewrite Hshould; exact Hback).
  exists token, ass'.
  split; [reflexivity|]. split; [congruence|]. split; [exact Hneg|].
  split; [exact Hagain|]. split; [exact Homega|].
  split; [rewrite Hshould; reflexivity|]. split; [exact Hnegated|].
  split; [congruence|].
  exact (checkStyle_silent ass' ws Hws' Hcs').
Qed.

Lemma checkStyle_fix_roundtrip_witness :
  (ExpectStyle = ShouldStyle \/ ExpectStyle = ExpectStyle) /\
  (exists token, renderInStyle ExpectStyle true = Ok token /\
                 getStyle token = Ok ExpectStyle) /\
  getAssertion (sampleCall "Expect" [ident 17 "x"] "Should" "BeNil") =
    Ok (Some sampleXShouldBeNil) /\
  exists pass' d fix_ ass',
    checkStyle sampleXShouldBeNil samplePass true = Ok pass' /\
    Reported pass' = (Reported samplePass ++ [d])%list /\
    SuggestedFixes d = [fix_] /\
    getAssertion
      (applyFix fix_ (sampleCall "Expect" [ident 17 "x"] "Should" "BeNil")) =
      Ok (Some ass') /\
    Name (a_Should ass') = "To".
Proof.
  split; [right; reflexivity|]. split.
  { destruct (proj1 checkStyle_fix_roundtrip ExpectStyle true
                (or_intror eq_refl)) as (token & Htoken & Hback & _).
    exists token. split; assumption. }
  split; [reflexivity|].
  destruct (proj2 checkStyle_fix_roundtrip
              (sampleCall "Expect" [ident 17 "x"] "Should" "BeNil")
              sampleXShouldBeNil samplePass _ true _ _
              eq_refl eq_refl eq_refl eq_refl)
    as (token & ass' & Hedits & _ & _ & Hagain & _ & Hname & _).
  injection Hedits as <-.
  do 4 eexists. split; [reflexivity|]. split; [reflexivity|].
  split; [reflexivity|]. split; [exact Hagain | exact Hname].
Defined.

(** ** C8 *)

(** C8.  [getStyle] is defined on each of the seven known names.  On a
    recognized assertion both names classify, the renderer answers for
    the style of the wrapper under either negation flag, and both checks
    and the whole visit return.  On any node at all the visit ends in
    neither of the two panics of the classifier and the renderer, and
    neither does a whole run. *)
Theorem style_panics_unreachable :
  (forall name : string,
     In name [Omega; Expect; Should; ShouldNot; To; ToNot; NotTo] ->
     exists style, getStyle name = Ok style /\
                   (style = ShouldStyle \/ style = ExpectStyle)) /\
  (forall (n : Node) (ass : assertion) (pass : Pass),
     getAssertion n = Ok (Some ass) ->
     (exists wrapperStyle,
        getStyle (Name (a_Omega ass)) = Ok wrapperStyle /\
        forall negated, exists token,
          renderInStyle wrapperStyle negated = Ok token) /\
     (exists comparatorStyle,
        getStyle (Name (a_Should ass)) = Ok comparatorStyle) /\
     (exists emitted pass', checkNilnessAssertions ass pass = Ok (emitted, pass')) /\
     (forall emitFixes, exists pass', checkStyle ass pass emitFixes = Ok pass') /\
     (exists pass', visit pass n = Ok pass')) /\
  (forall (n : Node) (pass : Pass),
     visit pass n <> Panic "foo" /\ visit pass n <> Panic "bar") /\
  (forall pass : Pass, run pass <> Panic "foo" /\ run pass <> Panic "bar").
Proof.
  split; [|split; [|split]].
  - intros name Hin.
    assert (Hsplit : In name [Omega; Expect] \/
                     oneOf name [Should; ShouldNot; To; ToNot; NotTo] = true).
    { rewrite oneOf_In. simpl in *. intuition. }
    destruct Hsplit as [Hw|Hc].
    + exact (getStyle_wrapper name Hw).
    + apply comparatorNegated_known in Hc. destruct Hc as [negated Hc].
      exact (getStyle_comparator name negated Hc).
  - intros n ass pass H. destruct (recognized_names _ _ H) as [Hw Hc].
    split; [|split; [|split; [|split]]].
    + destruct (getStyle_wrapper _ Hw) as (ws & Hws & Hrange).
      exists ws. split; [exact Hws|]. intros negated.
      destruct (renderInStyle_roundtrip ws negated Hrange) as (token & Ht & _).
      eauto.
    + destruct (getStyle_comparator _ _ Hc) as (cs & Hcs & _). eauto.
    + exact (checkNilnessAssertions_returns n ass pass H).
    + intros emitFixes. exact (checkStyle_returns n ass pass emitFixes H).
    + exact (visit_returns n ass pass H).
  - intros n pass.
    split; intros Habs; apply visit_panic in Habs; discriminate Habs.
  - intros pass. unfold run.
    split; intros Habs; apply inspectFiles_panic in Habs; discriminate Habs.
Qed.

Lemma style_panics_unreachable_witness :
  In ToNot [Omega; Expect; Should; ShouldNot; To; ToNot; NotTo] /\
  (exists style, getStyle ToNot = Ok style) /\
  getAssertion (sampleCall "Expect" [ident 17 "err"] "Should" "BeNil") =
    Ok (Some sampleErrShouldBeNil) /\
  exists pass',
    visit samplePass (sampleCall "Expect" [ident 17 "err"] "Should" "BeNil") =
      Ok pass'.
Proof.
  assert (Hin : In ToNot [Omega; Expect; Should; ShouldNot; To; ToNot; NotTo])
    by (simpl; tauto).
  split; [exact Hin|]. split.
  { destruct (proj1 style_panics_unreachable ToNot Hin) as (style & Hs & _).
    exists style. exact Hs. }
  split; [reflexivity|].
  destruct (proj1 (proj2 style_panics_unreachable)
              (sampleCall "Expect" [ident 17 "err"] "Should" "BeNil")
              sampleErrShouldBeNil samplePass eq_refl)
    as (_ & _ & _ & _ & Hvisit).
  exact Hvisit.
Defined.

(** ** C9 *)

(** C9.  [getKnownMatcher] answers with a known matcher, namely the name
    of the callee, exactly for a call without arguments of a plain
    identifier named BeNil, HaveOccurred or Succeed; for any other
    matcher expression it answers Unknown.  On Unknown the nilness check
    returns false and leaves the pass as it was, whatever the type of the
    subject. *)
Theorem unknown_matcher_is_skipped (ass : assertion) :
  (knownMatcherCall (Matcher ass) = true ->
   exists callee lparen ellipsis rparen,
     Matcher ass = ECallExpr (EIdent callee) lparen [] ellipsis rparen /\
     In (Name callee) ["BeNil"; "HaveOccurred"; "Succeed"] /\
     getKnownMatcher ass = (Some callee, Name callee) /\
     Name callee <> UnknownMatcher) /\
  (knownMatcherCall (Matcher ass) = false ->
   getKnownMatcher ass = (None, UnknownMatcher)) /\
  (snd (getKnownMatcher ass) = UnknownMatcher ->
   forall pass : Pass, checkNilnessAssertions ass pass = Ok (false, pass)).
Proof.
  destruct (getKnownMatcher_cases ass) as
    [(callee & lparen & ellipsis & rparen & Hm & Hn & Hk) | [Hno Hk]].
  - assert (Hne : Name callee <> UnknownMatcher).
    { simpl in Hn. destruct Hn as [<-|[<-|[<-|[]]]]; discriminate. }
    split; [|split].
    + intros _. exists callee, lparen, ellipsis, rparen. auto.
    + rewrite Hm. cbn [knownMatcherCall]. apply oneOf_In in Hn.
      change ["BeNil"; "HaveOccurred"; "Succeed"]
        with [IsNil; HaveOccurred; Succeed].
      rewrite Hn. discriminate.
    + rewrite Hk. cbn [snd]. contradiction.
  - split; [|split].
    + rewrite Hno. discriminate.
    + intros _. exact Hk.
    + intros _ pass. unfold checkNilnessAssertions. rewrite Hk. reflexivity.
Qed.

Lemma unknown_matcher_is_skipped_witness :
  (knownMatcherCall (Matcher sampleErrShouldBeNil) = true /\
   getKnownMatcher sampleErrShouldBeNil =
     (Some {| NamePos := 32; Name := "BeNil" |}, "BeNil")) /\
  (knownMatcherCall (Matcher sampleCustomMatcher) = false /\
   snd (getKnownMatcher sampleCustomMatcher) = UnknownMatcher /\
   checkNilnessAssertions sampleCustomMatcher samplePass =
     Ok (false, samplePass)).
Proof.
  split.
  - split; [reflexivity|].
    destruct (proj1 (unknown_matcher_is_skipped sampleErrShouldBeNil) eq_refl)
      as (callee & lparen & ellipsis & rparen & Hm & _ & Hk & _).
    injection Hm as <- _ _ _. exact Hk.
  - split; [reflexivity|].
    pose proof (proj1 (proj2 (unknown_matcher_is_skipped sampleCustomMatcher))
                  eq_refl) as Hk.
    split; [rewrite Hk; reflexivity|].
    apply (proj2 (proj2 (unknown_matcher_is_skipped sampleCustomMatcher))).
    rewrite Hk. reflexivity.
Defined.

(** ** C10 *)

(** C10.  When the nilness check hands back true, the fix of its
    diagnostic has two edits, and the second covers the comparator with
    the token of the wrapper's style under the flipped negation flag.
    With the comparator standing before the matcher in the source, the
    tree with the fix applied is recognized again, with the same wrapper,
    that token as comparator and the flipped negation; its two styles are
    equal, whatever the style of the comparator was before, and the style
    check leaves every pass unchanged on it. *)
Theorem nilness_inversion_in_wrapper_style
    (n : Node) (ass : assertion) (pass pass' : Pass) :
  getAssertion n = Ok (Some ass) ->
  checkNilnessAssertions ass pass = Ok (true, pass') ->
  exists style token d fix_ matcherEdit,
    getStyle (Name (a_Omega ass)) = Ok style /\
    renderInStyle style (negb (Negated ass)) = Ok token /\
    getStyle token = Ok style /\
    comparatorNegated token = Some (negb (Negated ass)) /\
    Reported pass' = (Reported pass ++ [d])%list /\
    SuggestedFixes d = [fix_] /\
    TextEdits fix_ = [ matcherEdit;
                       {| te_Pos := Ident_Pos (a_Should ass);
                          te_End := Ident_End (a_Should ass);
                          NewText := token |} ] /\
    (Ident_Pos (a_Should ass) < Expr_Pos (Matcher ass) ->
     exists ass',
       getAssertion (applyFix fix_ n) = Ok (Some ass') /\
       a_Omega ass' = a_Omega ass /\
       Name (a_Should ass') = token /\
       Negated ass' = negb (Negated ass) /\
       getStyle (Name (a_Omega ass')) = getStyle (Name (a_Should ass')) /\
       forall (p : Pass) (b : bool), checkStyle ass' p b = Ok p).
Proof.
  intros H Hrun.
  pose proof (checkNilnessAssertions_cases n ass pass H) as C.
  cbv zeta in C. destruct ((_ =? UnknownMatcher) || _)%string.
  { rewrite C in Hrun. discriminate. }
  destruct C as (callee & lparen & ellipsis & rparen & style & token
                 & Hm & _ & Hstyle & Htoken & Hrun').
  rewrite Hrun' in Hrun. injection Hrun as Hinv <-. rewrite Hinv.
  destruct (getStyle_wrapper _ (proj1 (recognized_names _ _ H)))
    as (style' & Hstyle' & Hrange).
  assert (style' = style) by congruence. subst style'.
  destruct (renderInStyle_roundtrip style (negb (Negated ass)) Hrange)
    as (token' & Htoken' & Hback & Hneg).
  assert (token' = token) by congruence. subst token'.
  do 5 eexists.
  split; [exact Hstyle|]. split; [exact Htoken|]. split; [exact Hback|].
  split; [exact Hneg|]. split; [reflexivity|]. split; [reflexivity|].
  split; [reflexivity|].
  intros Hbefore. rewrite Hm in Hbefore. cbn [Expr_Pos] in Hbefore.
  match goal with
  | |- exists ass', getAssertion (applyFix ?f n) = _ /\ _ =>
    destruct (applyFix_comparator n ass f
                {| te_Pos := Ident_Pos (a_Should ass);
                   te_End := Ident_End (a_Should ass); NewText := token |}
                (negb (Negated ass)) H)
      as (ass' & Hagain & Homega & _ & Hshould & Hnegated)
  end.
  { cbn [TextEdits find]. unfold covers at 1. cbn [te_Pos te_End].
    assert (Hne : (Ident_Pos callee =? Ident_Pos (a_Should ass)) = false)
      by (apply Z.eqb_neq; lia).
    rewrite Hne. cbn [andb]. unfold covers. cbn [te_Pos te_End].
    rewrite !Z.eqb_refl. reflexivity. }
  { exact Hneg. }
  assert (Hws' : getStyle (Name (a_Omega ass')) = Ok style)
    by (rewrite Homega; exact Hstyle).
  assert (Hcs' : getStyle (Name (a_Should ass')) = Ok style)
    by (rewrite Hshould; exact Hback).
  exists ass'.
  split; [exact Hagain|]. split; [exact Homega|].
  split; [rewrite Hshould; reflexivity|]. split; [exact Hnegated|].
  split; [congruence|].
  exact (checkStyle_silent ass' style Hws' Hcs').
Qed.

Lemma nilness_inversion_in_wrapper_style_witness :
  getAssertion (sampleCall "Expect" [ident 17 "err"] "Should" "BeNil") =
    Ok (Some sampleErrShouldBeNil) /\
  Ident_Pos (a_Should sampleErrShouldBeNil) <
    Expr_Pos (Matcher sampleErrShouldBeNil) /\
  exists pass' d fix_ ass',
    checkNilnessAssertions sampleErrShouldBeNil samplePass = Ok (true, pass') /\
    Reported pass' = (Reported samplePass ++ [d])%list /\
    SuggestedFixes d = [fix_] /\
    getAssertion
      (applyFix fix_ (sampleCall "Expect" [ident 17 "err"] "Should" "BeNil")) =
      Ok (Some ass') /\
    Name (a_Should ass') = "NotTo" /\
    Negated ass' = true.
Proof.
  split; [reflexivity|]. split; [reflexivity|].
  destruct (nilness_inversion_in_wrapper_style
              (sampleCall "Expect" [ident 17 "err"] "Should" "BeNil")
              sampleErrShouldBeNil samplePass _ eq_refl eq_refl)
    as (style & token & d & fix_ & matcherEdit & Hstyle & Htoken & _ & _
        & Hrep & Hfix & _ & Happly).
  injection Hstyle as <-. injection Htoken as <-.
  destruct Happly as (ass' & Hagain & _ & Hname & Hnegated & _);
    [reflexivity|].
  eexists. exists d, fix_, ass'.
  split; [reflexivity|]. split; [exact Hrep|]. split; [exact Hfix|].
  split; [exact Hagain|]. split; [exact Hname | exact Hnegated].
Defined.

(** * Further properties *)

(** ** Reports are appended, and depend on the node and the types only *)

Lemma extend_nil (pass : Pass) : extend pass [] = pass.
Proof.
  destruct pass as [files info reported]. unfold extend. cbn.
  rewrite app_nil_r. reflexivity.
Qed.

Lemma extend_extend (pass : Pass) (xs ys : list Diagnostic) :
  extend (extend pass xs) ys = extend pass (xs ++ ys)%list.
Proof.
  unfold extend. cbn. rewrite app_assoc. reflexivity.
Qed.

Lemma checkNilnessAssertions_local (ass : assertion) (pass : Pass) :
  checkNilnessAssertions ass pass =
    r <- checkNilnessAssertions ass (fresh (TypesInfo pass)) ;;
    Ok (fst r, extend pass (Reported (snd r))).
Proof.
  unfold checkNilnessAssertions. cbn [fresh TypesInfo].
  destruct (getKnownMatcher ass) as [matcherIdent matcher].
  destruct (matcher =? UnknownMatcher)%string;
    [cbn; rewrite extend_nil; reflexivity|].
  destruct (matcher =? _)%string;
    [cbn; rewrite extend_nil; reflexivity|].
  destruct matcherIdent as [mi|]; cbn [deref bind]; [|reflexivity].
  destruct (negb (Bool.eqb _ _)); [|reflexivity].
  destruct (getStyle _) as [style|]; cbn [bind]; [|reflexivity].
  destruct (renderInStyle _ _); reflexivity.
Qed.

Lemma checkStyle_local (ass : assertion) (pass : Pass) (emitFixes : bool) :
  checkStyle ass pass emitFixes =
    p <- checkStyle ass (fresh (TypesInfo pass)) emitFixes ;;
    Ok (extend pass (Reported p)).
Proof.
  unfold checkStyle.
  destruct (getStyle (Name (a_Omega ass))) as [ws|]; cbn [bind]; [|reflexivity].
  destruct (getStyle (Name (a_Should ass))) as [cs|]; cbn [bind];
    [|reflexivity].
  destruct (ws =? cs); [cbn; rewrite extend_nil; reflexivity|].
  destruct emitFixes; [|reflexivity].
  cbn [bind]. destruct (renderInStyle _ _); reflexivity.
Qed.

Lemma visit_local (n : Node) (pass : Pass) :
  visit pass n =
    p <- visit (fresh (TypesInfo pass)) n ;; Ok (extend pass (Reported p)).
Proof.
  unfold visit. destruct (getAssertion n) as [[ass|]|msg]; cbn [bind].
  - rewrite (checkNilnessAssertions_local ass pass).
    pose proof (checkNilnessAssertions_local ass (fresh (TypesInfo pass))) as E.
    cbn [fresh TypesInfo] in E.
    destruct (checkNilnessAssertions ass (fresh (TypesInfo pass)))
      as [[emitted pass1]|msg]; cbn [bind fst snd] in *; [|reflexivity].
    injection E as E.
    rewrite (checkStyle_local ass (extend pass (Reported pass1))).
    rewrite (checkStyle_local ass pass1).
    assert (Hinfo : TypesInfo pass1 = TypesInfo pass)
      by (rewrite E; reflexivity).
    rewrite Hinfo. cbn [extend TypesInfo].
    destruct (checkStyle ass (fresh (TypesInfo pass)) (negb emitted))
      as [q|msg']; cbn [bind]; [|reflexivity].
    fold (extend pass (Reported pass1)).
    rewrite extend_extend. reflexivity.
  - cbn. rewrite extend_nil. reflexivity.
  - reflexivity.
Qed.

Lemma inspect_local (nodes : File) (pass : Pass) :
  inspect nodes pass =
    p <- inspect nodes (fresh (TypesInfo pass)) ;;
    Ok (extend pass (Reported p)).
Proof.
  revert pass. induction nodes as [|n rest IH]; intros pass; cbn [inspect].
  - cbn. rewrite extend_nil. reflexivity.
  - rewrite (visit_local n pass).
    destruct (visit (fresh (TypesInfo pass)) n) as [p1|msg] eqn:Hvisit;
      cbn [bind]; [|reflexivity].
    rewrite (IH (extend pass (Reported p1))), (IH p1).
    assert (Hinfo : TypesInfo p1 = TypesInfo pass).
    { pose proof (visit_local n (fresh (TypesInfo pass))) as E.
      cbn [fresh TypesInfo] in E. rewrite Hvisit in E. cbn [bind] in E.
      injection E as E. rewrite E. reflexivity. }
    rewrite Hinfo. cbn [extend TypesInfo].
    destruct (inspect rest (fresh (TypesInfo pass))) as [q|msg]; cbn [bind];
      [|reflexivity].
    fold (extend pass (Reported p1)). rewrite extend_extend. reflexivity.
Qed.

Lemma inspect_app (xs ys : File) (pass : Pass) :
  inspect (xs ++ ys)%list pass = p <- inspect xs pass ;; inspect ys p.
Proof.
  revert pass. induction xs as [|n rest IH]; intros pass; cbn [inspect app].
  - reflexivity.
  - destruct (visit pass n) as [p1|msg]; cbn [bind]; [apply IH | reflexivity].
Qed.

Lemma inspectFiles_concat (files : list File) (pass : Pass) :
  inspectFiles files pass = inspect (List.concat files) pass.
Proof.
  revert pass. induction files as [|file rest IH]; intros pass;
    cbn [inspectFiles List.concat].
  - reflexivity.
  - rewrite inspect_app.
    destruct (inspect file pass) as [p1|msg]; cbn [bind];
      [apply IH | reflexivity].
Qed.

(** Each of the two checks appends at most one diagnostic. *)
Lemma checkNilnessAssertions_count (ass : assertion) (pass pass' : Pass)
    (emitted : bool) :
  checkNilnessAssertions ass pass = Ok (emitted, pass') ->
  (List.length (Reported pass') <= List.length (Reported pass) + 1)%nat.
Proof.
  unfold checkNilnessAssertions.
  destruct (getKnownMatcher ass) as [matcherIdent matcher].
  destruct (matcher =? UnknownMatcher)%string; [intros [= _ <-]; lia|].
  destruct (matcher =? _)%string; [intros [= _ <-]; lia|].
  destruct matcherIdent as [mi|]; cbn [deref bind]; [|discriminate].
  destruct (negb (Bool.eqb _ _)).
  - destruct (getStyle _) as [style|]; cbn [bind]; [|discriminate].
    destruct (renderInStyle _ _); cbn [bind]; [|discriminate].
    intros [= _ <-]. cbn [Report Reported]. rewrite length_app. cbn. lia.
  - cbn [bind]. intros [= _ <-]. cbn [Report Reported].
    rewrite length_app. cbn. lia.
Qed.

Lemma checkStyle_count (ass : assertion) (pass pass' : Pass) (emitFixes : bool) :
  checkStyle ass pass emitFixes = Ok pass' ->
  (List.length (Reported pass') <= List.length (Reported pass) + 1)%nat.
Proof.
  unfold checkStyle.
  destruct (getStyle (Name (a_Omega ass))) as [ws|]; cbn [bind];
    [|discriminate].
  destruct (getStyle (Name (a_Should ass))) as [cs|]; cbn [bind];
    [|discriminate].
  destruct (ws =? cs); [intros [= <-]; lia|].
  destruct emitFixes; cbn [bind].
  - destruct (renderInStyle _ _); cbn [bind]; [|discriminate].
    intros [= <-]. cbn [Report Reported]. rewrite length_app. cbn. lia.
  - intros [= <-]. cbn [Report Reported]. rewrite length_app. cbn. lia.
Qed.

Lemma visit_count (n : Node) (pass pass' : Pass) :
  visit pass n = Ok pass' ->
  (List.length (Reported pass') <=
   List.length (Reported pass) + (if recognizes n then 2 else 0))%nat.
Proof.
  unfold visit, recognizes.
  destruct (getAssertion n) as [[ass|]|msg]; cbn [bind].
  - destruct (checkNilnessAssertions ass pass) as [[emitted pass1]|msg] eqn:Hnil;
      cbn [bind]; [|discriminate].
    intros Hstyle. apply checkNilnessAssertions_count in Hnil.
    apply checkStyle_count in Hstyle. lia.
  - intros [= <-]. lia.
  - discriminate.
Qed.

Lemma inspect_count (nodes : File) (pass pass' : Pass) :
  inspect nodes pass = Ok pass' ->
  (List.length (Reported pass') <=
   List.length (Reported pass) + 2 * List.length (filter recognizes nodes))%nat.
Proof.
  revert pass. induction nodes as [|n rest IH]; intros pass;
    cbn [inspect filter].
  - intros [= <-]. lia.
  - destruct (visit pass n) as [p1|msg] eqn:Hvisit; cbn [bind];
      [|discriminate].
    intros Hrest. apply IH in Hrest. apply visit_count in Hvisit.
    destruct (recognizes n); cbn [List.length]; lia.
Qed.

(** ** X1 *)

(** X1.  A run that returns leaves the files and the type information of
    the pass as they were and keeps what had been reported in front of
    what it adds; what it adds is the same for every pass over the same
    files with the same type information. *)
Theorem run_appends_by_files_and_types (pass pass' : Pass) :
  run pass = Ok pass' ->
  exists news,
    pass' = extend pass news /\
    forall other : Pass,
      Files other = Files pass -> TypesInfo other = TypesInfo pass ->
      run other = Ok (extend other news).
Proof.
  unfold run. rewrite inspectFiles_concat, inspect_local.
  destruct (inspect (List.concat (Files pass)) (fresh (TypesInfo pass)))
    as [p|msg] eqn:Hfresh; cbn [bind]; [|discriminate].
  intros [= <-]. exists (Reported p). split; [reflexivity|].
  intros other Hfiles Hinfo.
  rewrite inspectFiles_concat, inspect_local, Hfiles, Hinfo, Hfresh.
  reflexivity.
Qed.

Lemma run_appends_by_files_and_types_witness :
  exists pass' news,
    run sampleRunPass = Ok pass' /\
    pass' = extend sampleRunPass news /\
    List.length news = 3%nat /\
    run (extend sampleRunPass news) = Ok (extend (extend sampleRunPass news) news).
Proof.
  destruct (run sampleRunPass) as [pass'|msg] eqn:Hrun;
    [|vm_compute in Hrun; discriminate Hrun].
  destruct (run_appends_by_files_and_types sampleRunPass pass' Hrun)
    as (news & Hext & Hother).
  exists pass', news. split; [reflexivity|]. split; [exact Hext|].
  split.
  - vm_compute in Hrun. injection Hrun as Hrun. subst pass'.
    unfold extend in Hext. injection Hext as Hnews. cbn in Hnews.
    subst news. reflexivity.
  - apply Hother; reflexivity.
Defined.

(** ** X2 *)

(** X2.  A run appends at most two diagnostics for every node the
    matcher recognizes, and none for any other node. *)
Theorem run_reports_at_most_two_per_assertion (pass pass' : Pass) :
  run pass = Ok pass' ->
  (List.length (Reported pass') <=
   List.length (Reported pass) +
   2 * List.length (filter recognizes (List.concat (Files pass))))%nat.
Proof.
  unfold run. rewrite inspectFiles_concat. apply inspect_count.
Qed.

Lemma run_reports_at_most_two_per_assertion_witness :
  exists pass',
    run sampleRunPass = Ok pass' /\
    (List.length (Reported pass') <= 0 + 2 * 2)%nat.
Proof.
  destruct (run sampleRunPass) as [pass'|msg] eqn:Hrun;
    [|vm_compute in Hrun; discriminate Hrun].
  exists pass'. split; [reflexivity|].
  exact (run_reports_at_most_two_per_assertion sampleRunPass pass' Hrun).
Defined.

(** ** X3 *)

(** X3.  The reports of a sequence of nodes are the reports of its front
    part followed by the reports of its back part, each as reported on
    its own under the same type information. *)
Theorem inspect_app_reports (xs ys : File) (info : types_Info) (p1 p2 : Pass) :
  inspect xs (fresh info) = Ok p1 ->
  inspect ys (fresh info) = Ok p2 ->
  forall pass : Pass,
    TypesInfo pass = info ->
    inspect (xs ++ ys)%list pass =
      Ok (extend pass (Reported p1 ++ Reported p2)).
Proof.
  intros H1 H2 pass Hinfo.
  rewrite inspect_app, (inspect_local xs pass), Hinfo, H1. cbn [bind].
  rewrite (inspect_local ys (extend pass (Reported p1))).
  cbn [extend TypesInfo]. rewrite Hinfo, H2. cbn [bind].
  fold (extend pass (Reported p1)). rewrite extend_extend. reflexivity.
Qed.

Lemma inspect_app_reports_witness :
  exists p1 p2,
    inspect (nth 0 sampleFiles []) (fresh sampleInfo) = Ok p1 /\
    inspect (nth 1 sampleFiles []) (fresh sampleInfo) = Ok p2 /\
    inspect (nth 0 sampleFiles [] ++ nth 1 sampleFiles [])%list samplePass =
      Ok (extend samplePass (Reported p1 ++ Reported p2)).
Proof.
  do 2 eexists. split; [reflexivity|]. split; [reflexivity|].
  apply (inspect_app_reports (nth 0 sampleFiles []) (nth 1 sampleFiles [])
           sampleInfo); reflexivity.
Defined.

(** ** What the matcher recognizes, and where it panics *)

Lemma comparatorNegated_iff (name : string) (negated : bool) :
  comparatorNegated name = Some negated <->
  In name [Should; ShouldNot; To; ToNot; NotTo] /\
  negated = oneOf name [ShouldNot; ToNot; NotTo].
Proof.
  split.
  - intros H. split; [apply oneOf_In, comparatorNegated_known; eauto|].
    apply comparatorNegated_cases in H.
    destruct H as [[-> [->| ->]] | [-> [->|[->| ->]]]]; reflexivity.
  - intros [Hin ->]. simpl in Hin.
    destruct Hin as [<-|[<-|[<-|[<-|[<-|[]]]]]]; reflexivity.
Qed.

(** ** X4 *)

(** X4.  [getAssertion] recognizes a node exactly when it is a call with
    one argument of a selector on a call with at least one argument of
    an identifier named by one of the two wrapper names, the selector
    being one of the five comparator names.  The assertion then holds
    the node itself, the wrapper identifier, the first argument of the
    wrapper call as subject, the selector, the argument of the outer
    call as matcher, and is negated exactly for ShouldNot, ToNot and
    NotTo. *)
Theorem getAssertion_recognized_iff (n : Node) (ass : assertion) :
  getAssertion n = Ok (Some ass) <->
  exists omega olparen subject more oellipsis orparen sel lparen matcher
         ellipsis rparen,
    let call := ECallExpr
                  (ESelectorExpr
                     (ECallExpr (EIdent omega) olparen (subject :: more)
                                oellipsis orparen) sel)
                  lparen [matcher] ellipsis rparen in
    n = NExpr call /\
    In (Name omega) [Omega; Expect] /\
    In (Name sel) [Should; ShouldNot; To; ToNot; NotTo] /\
    ass = {| CallExpr := call; a_Omega := omega; Subject := subject;
             a_Should := sel; Matcher := matcher;
             Negated := oneOf (Name sel) [ShouldNot; ToNot; NotTo] |}.
Proof.
  split.
  - intros H. apply getAssertion_inv in H.
    destruct H as (omega & olparen & subject & more & oellipsis & orparen & sel
                   & lparen & matcher & ellipsis & rparen & Hn & Hw & Hc & Hass).
    apply comparatorNegated_iff in Hc. destruct Hc as [Hin Hneg].
    rewrite Hneg in Hass.
    exists omega, olparen, subject, more, oellipsis, orparen, sel, lparen,
      matcher, ellipsis, rparen. cbv zeta. auto.
  - intros (omega & olparen & subject & more & oellipsis & orparen & sel
            & lparen & matcher & ellipsis & rparen & Hn & Hw & Hin & Hass).
    subst n ass. apply getAssertion_shape; [exact Hw|].
    apply comparatorNegated_iff. auto.
Qed.

Lemma getAssertion_recognized_iff_witness :
  getAssertion (sampleCall "Expect" [ident 17 "a"; ident 19 "b"] "ToNot" "BeNil") =
    Ok (Some
          {| CallExpr :=
               ECallExpr
                 (ESelectorExpr
                    (ECallExpr (ident 10 "Expect") 16
                               [ident 17 "a"; ident 19 "b"] 0 20)
                    {| NamePos := 22; Name := "ToNot" |})
                 31 [ECallExpr (ident 32 "BeNil") 44 [] 0 45] 0 46;
             a_Omega := {| NamePos := 10; Name := "Expect" |};
             Subject := ident 17 "a";
             a_Should := {| NamePos := 22; Name := "ToNot" |};
             Matcher := ECallExpr (ident 32 "BeNil") 44 [] 0 45;
             Negated := true |}).
Proof.
  apply (proj2 (getAssertion_recognized_iff _ _)).
  exists {| NamePos := 10; Name := "Expect" |}, 16, (ident 17 "a"),
    [ident 19 "b"], 0, 20, {| NamePos := 22; Name := "ToNot" |}, 31,
    (ECallExpr (ident 32 "BeNil") 44 [] 0 45), 0, 46.
  cbv zeta. split; [reflexivity|]. split; [simpl; tauto|].
  split; [simpl; tauto | reflexivity].
Defined.

(** ** X5 *)

(** X5.  [getAssertion] panics exactly on a call with one argument of a
    known comparator selected on a call without arguments of a known
    wrapper; with an unknown wrapper or comparator name the same tree is
    answered with no match. *)
Theorem getAssertion_panics_iff (n : Node) :
  (exists msg, getAssertion n = Panic msg) <->
  exists omega olparen oellipsis orparen sel lparen matcher ellipsis rparen,
    n = NExpr (ECallExpr
                 (ESelectorExpr
                    (ECallExpr (EIdent omega) olparen [] oellipsis orparen) sel)
                 lparen [matcher] ellipsis rparen) /\
    In (Name omega) [Omega; Expect] /\
    In (Name sel) [Should; ShouldNot; To; ToNot; NotTo].
Proof.
  split.
  - intros [msg H]. revert H. unfold getAssertion.
    destruct n as [e| |]; try discriminate.
    destruct e as [|callFun lparen callArgs ellipsis rparen| |];
      try discriminate.
    destruct callFun as [| | x sel|];
      try (destruct (negb _); discriminate).
    destruct x as [|omegaFun olparen omegaArgs oellipsis orparen| |];
      try (destruct (negb _); discriminate).
    destruct omegaFun as [omega| | |];
      try (destruct (negb _); discriminate).
    destruct (oneOf (Name omega) [Omega; Expect]) eqn:Eomega;
      [|destruct (negb _); discriminate].
    destruct (comparatorNegated (Name sel)) as [negated|] eqn:Esel;
      [|destruct (negb _); discriminate].
    destruct callArgs as [|matcher [|]]; try discriminate.
    destruct omegaArgs as [|subject more]; try discriminate.
    intros _.
    exists omega, olparen, oellipsis, orparen, sel, lparen, matcher, ellipsis,
      rparen.
    split; [reflexivity|]. split; [now apply oneOf_In|].
    apply comparatorNegated_iff in Esel. tauto.
  - intros (omega & olparen & oellipsis & orparen & sel & lparen & matcher
            & ellipsis & rparen & -> & Hw & Hc).
    apply oneOf_In in Hw. apply oneOf_In, comparatorNegated_known in Hc.
    destruct Hc as [negated Hc].
    unfold getAssertion. cbn [List.length Nat.eqb negb].
    rewrite Hw, Hc. cbn. eauto.
Qed.

Lemma getAssertion_panics_iff_witness :
  (exists msg,
     getAssertion (sampleCall Omega [] "NotTo" "Succeed") = Panic msg) /\
  getAssertion (sampleCall "Expected" [] "NotTo" "Succeed") = Ok None.
Proof.
  split; [|reflexivity].
  apply (proj2 (getAssertion_panics_iff _)).
  do 9 eexists. split; [reflexivity|]. split; simpl; tauto.
Defined.

(** ** X6 *)

(** X6.  Reading style and negation off a known comparator name and
    rendering them gives the name back, except for ToNot, which comes
    back as NotTo; the renderer yields one of Should, ShouldNot, To and
    NotTo whenever it returns. *)
Theorem renderInStyle_normalises_comparator :
  (forall name : string,
     In name [Should; ShouldNot; To; ToNot; NotTo] ->
     exists style negated,
       getStyle name = Ok style /\
       comparatorNegated name = Some negated /\
       renderInStyle style negated =
         Ok (if (name =? ToNot)%string then NotTo else name)) /\
  (forall (style : Style) (negated : bool) (token : string),
     renderInStyle style negated = Ok token ->
     In token [Should; ShouldNot; To; NotTo]).
Proof.
  split.
  - simpl. intros name [<-|[<-|[<-|[<-|[<-|[]]]]]]; do 2 eexists;
      (split; [|split]); vm_compute; reflexivity.
  - intros style negated token. unfold renderInStyle.
    destruct (style =? ShouldStyle); [|destruct (style =? ExpectStyle)];
      try destruct negated; intros [= <-]; simpl; tauto.
Qed.

Lemma renderInStyle_normalises_comparator_witness :
  In ToNot [Should; ShouldNot; To; ToNot; NotTo] /\
  exists style negated,
    getStyle ToNot = Ok style /\ comparatorNegated ToNot = Some negated /\
    renderInStyle style negated = Ok NotTo.
Proof.
  assert (Hin : In ToNot [Should; ShouldNot; To; ToNot; NotTo])
    by (simpl; tauto).
  split; [exact Hin|].
  destruct (proj1 renderInStyle_normalises_comparator ToNot Hin)
    as (style & negated & Hs & Hn & Hr).
  exists style, negated. auto.
Defined.

(** ** The style check on names *)

Lemma Report_neq (pass : Pass) (d : Diagnostic) : Report pass d <> pass.
Proof.
  intros H. apply (f_equal Reported) in H. cbn [Report Reported] in H.
  apply (f_equal (@List.length _)) in H. rewrite length_app in H.
  cbn in H. lia.
Qed.

Lemma getStyle_defined (name : string) :
  (In name [Omega; Expect; Should; ShouldNot; To; ToNot; NotTo] ->
   exists style, getStyle name = Ok style /\
                 (style = ShouldStyle \/ style = ExpectStyle)) /\
  (~ In name [Omega; Expect; Should; ShouldNot; To; ToNot; NotTo] ->
   getStyle name = Panic "foo").
Proof.
  unfold getStyle.
  destruct (oneOf name [Omega; Should; ShouldNot]) eqn:E1;
    [|destruct (oneOf name [Expect; To; ToNot; NotTo]) eqn:E2].
  - split; [eauto|]. intros Hout. exfalso. apply Hout.
    apply oneOf_In in E1. simpl in *. tauto.
  - split; [eauto|]. intros Hout. exfalso. apply Hout.
    apply oneOf_In in E2. simpl in *. tauto.
  - split; [|reflexivity]. intros Hin. exfalso.
    assert (H1 : ~ In name [Omega; Should; ShouldNot])
      by (rewrite <- oneOf_In, E1; discriminate).
    assert (H2 : ~ In name [Expect; To; ToNot; NotTo])
      by (rewrite <- oneOf_In, E2; discriminate).
    simpl in *. tauto.
Qed.

(** ** X7 *)

(** X7.  On a recognized assertion the style check stays silent exactly
    for the wrapper with the omega name followed by Should or ShouldNot
    and for Expect followed by To, ToNot or NotTo; for the five other
    pairs of names it reports. *)
Theorem checkStyle_silent_iff (n : Node) (ass : assertion) (pass : Pass)
    (emitFixes : bool) :
  getAssertion n = Ok (Some ass) ->
  (checkStyle ass pass emitFixes = Ok pass <->
   (Name (a_Omega ass) = Omega /\
    In (Name (a_Should ass)) [Should; ShouldNot]) \/
   (Name (a_Omega ass) = Expect /\
    In (Name (a_Should ass)) [To; ToNot; NotTo])).
Proof.
  intros H.
  destruct (checkStyle_cases n ass pass emitFixes H)
    as (ws & cs & token & Hws & Hcs & _ & _ & _ & Hrun).
  destruct (recognized_names _ _ H) as [Hw Hc].
  apply comparatorNegated_cases in Hc. rewrite Hrun. clear Hrun.
  simpl in Hw.
  destruct Hw as [Hw|[Hw|[]]];
    destruct Hc as [[_ [Hc|Hc]] | [_ [Hc|[Hc|Hc]]]];
    rewrite <- Hw in *; rewrite Hc in *;
    vm_compute in Hws; vm_compute in Hcs;
    injection Hws as <-; injection Hcs as <-;
    cbn [Z.eqb Pos.eqb];
    (split;
     [ intros Hrun; try (injection Hrun as Hrun; apply Report_neq in Hrun;
                         contradiction);
       simpl; tauto
     | intros [[Ha Hb]|[Ha Hb]]; try reflexivity; exfalso;
       simpl in Hb; try discriminate Ha;
       repeat (destruct Hb as [Hb|Hb]; try discriminate Hb); exact Hb ]).
Qed.

Lemma checkStyle_silent_iff_witness :
  getAssertion (sampleCall "Expect" [ident 17 "x"] "Should" "BeNil") =
    Ok (Some sampleXShouldBeNil) /\
  checkStyle sampleXShouldBeNil samplePass true <> Ok samplePass.
Proof.
  split; [reflexivity|]. intros Hsilent.
  apply (proj1 (checkStyle_silent_iff
                  (sampleCall "Expect" [ident 17 "x"] "Should" "BeNil")
                  sampleXShouldBeNil samplePass true eq_refl)) in Hsilent.
  destruct Hsilent as [[Ha _]|[_ Hb]].
  - discriminate Ha.
  - simpl in Hb. destruct Hb as [Hb|[Hb|[Hb|[]]]]; discriminate Hb.
Defined.

(** ** X8 *)

(** X8.  On any assertion value, recognized or not, the style check
    returns when both of its names are among the seven known ones, and
    panics with "foo" when one of them is not. *)
Theorem checkStyle_returns_iff_known_names (ass : assertion) (pass : Pass)
    (emitFixes : bool) :
  let known := [Omega; Expect; Should; ShouldNot; To; ToNot; NotTo] in
  (In (Name (a_Omega ass)) known /\ In (Name (a_Should ass)) known ->
   exists pass', checkStyle ass pass emitFixes = Ok pass') /\
  (~ (In (Name (a_Omega ass)) known /\ In (Name (a_Should ass)) known) ->
   checkStyle ass pass emitFixes = Panic "foo").
Proof.
  cbv zeta. unfold checkStyle.
  destruct (getStyle_defined (Name (a_Omega ass))) as [Hwin Hwout].
  destruct (getStyle_defined (Name (a_Should ass))) as [Hcin Hcout].
  split.
  - intros [Hw Hc].
    destruct (Hwin Hw) as (ws & -> & Hrange).
    destruct (Hcin Hc) as (cs & -> & _). cbn [bind].
    destruct (ws =? cs); [eauto|].
    destruct emitFixes; cbn [bind]; [|eauto].
    destruct (renderInStyle_roundtrip ws (Negated ass) Hrange)
      as (token & -> & _). cbn [bind]. eauto.
  - intros Hout.
    destruct (in_dec string_dec (Name (a_Omega ass))
                [Omega; Expect; Should; ShouldNot; To; ToNot; NotTo])
      as [Hw|Hw]; [|rewrite (Hwout Hw); reflexivity].
    destruct (Hwin Hw) as (ws & -> & _). cbn [bind].
    destruct (in_dec string_dec (Name (a_Should ass))
                [Omega; Expect; Should; ShouldNot; To; ToNot; NotTo])
      as [Hc|Hc]; [|rewrite (Hcout Hc); reflexivity].
    exfalso. apply Hout. split; assumption.
Qed.

Lemma checkStyle_returns_iff_known_names_witness :
  (exists pass', checkStyle sampleXShouldBeNil samplePass true = Ok pass') /\
  checkStyle sampleLowerCaseWrapper samplePass true = Panic "foo".
Proof.
  split.
  - apply (proj1 (checkStyle_returns_iff_known_names
                    sampleXShouldBeNil samplePass true)).
    simpl. tauto.
  - apply (proj2 (checkStyle_returns_iff_known_names
                    sampleLowerCaseWrapper samplePass true)).
    simpl. intros [[H|[H|[H|[H|[H|[H|[H|[]]]]]]]] _]; discriminate H.
Defined.

(** ** X9 *)



(** ** Everything a visit reports for a recognized assertion *)

Lemma recognized_whole (n : Node) (ass : assertion) :
  getAssertion n = Ok (Some ass) -> n = NExpr (CallExpr ass).
Proof.
  intros H. apply getAssertion_inv in H.
  destruct H as (omega & olparen & subject & more & oellipsis & orparen & sel
                 & lparen & matcher & ellipsis & rparen & -> & _ & _ & Hass).
  rewrite Hass. reflexivity.
Qed.

Lemma visit_cases (n : Node) (ass : assertion) (pass : Pass) :
  getAssertion n = Ok (Some ass) ->
  exists ws cs keep flip,
    getStyle (Name (a_Omega ass)) = Ok ws /\
    getStyle (Name (a_Should ass)) = Ok cs /\
    renderInStyle ws (Negated ass) = Ok keep /\
    renderInStyle ws (negb (Negated ass)) = Ok flip /\
    getStyle keep = Ok ws /\ getStyle flip = Ok ws /\
    comparatorNegated keep = Some (Negated ass) /\
    comparatorNegated flip = Some (negb (Negated ass)) /\
    let actual := snd (getKnownMatcher ass) in
    let expected := expectedBySpec (isErrorExpr (Subject ass) (TypesInfo pass))
                                   (isCallExpr (Subject ass)) in
    let invert := negb (Bool.eqb (matchesNil actual) (matchesNil expected)) in
    let styleD (emitFixes : bool) :=
      {| d_Pos := assertion_Pos ass;
         d_End := assertion_End ass;
         Message := "inconsistent assertion style (" ++ Name (a_Omega ass) ++
                    " + " ++ Name (a_Should ass) ++ ")";
         SuggestedFixes :=
           if emitFixes
           then [ {| sf_Message := "change " ++ Name (a_Should ass) ++
                                   " to " ++ keep;
                     TextEdits := [ {| te_Pos := Ident_Pos (a_Should ass);
                                       te_End := Ident_End (a_Should ass);
                                       NewText := keep |} ] |} ]
           else [] |} in
    let styleDs (emitFixes : bool) :=
      if ws =? cs then [] else [styleD emitFixes] in
    if ((actual =? UnknownMatcher) || (actual =? expected))%string
    then visit pass n = Ok (extend pass (styleDs true))
    else exists callee lparen ellipsis rparen,
      Matcher ass = ECallExpr (EIdent callee) lparen [] ellipsis rparen /\
      Name callee = actual /\
      In expected [IsNil; HaveOccurred; Succeed] /\
      visit pass n =
        Ok (extend pass
              ({| d_Pos := assertion_Pos ass;
                  d_End := assertion_End ass;
                  Message := "unidiomatic matcher: consider using " ++
                             expected ++ " instead of " ++ actual ++
                             " in this assertion";
                  SuggestedFixes :=
                    [ {| sf_Message :=
                           "change matcher to " ++ expected ++
                           (if invert then " and invert the assertion" else "");
                         TextEdits :=
                           {| te_Pos := Ident_Pos callee;
                              te_End := Ident_End callee;
                              NewText := expected |} ::
                           (if invert
                            then [ {| te_Pos := Ident_Pos (a_Should ass);
                                      te_End := Ident_End (a_Should ass);
                                      NewText := flip |} ]
                            else []) |} ] |}
               :: styleDs (negb invert))).
Proof.
  intros H.
  destruct (recognized_names _ _ H) as [Hw Hc].
  destruct (getStyle_wrapper _ Hw) as (ws & Hws & Hrange).
  destruct (getStyle_comparator _ _ Hc) as (cs & Hcs & _).
  destruct (renderInStyle_roundtrip ws (Negated ass) Hrange)
    as (keep & Hkeep & Hkeepstyle & Hkeepneg).
  destruct (renderInStyle_roundtrip ws (negb (Negated ass)) Hrange)
    as (flip & Hflip & Hflipstyle & Hflipneg).
  exists ws, cs, keep, flip. repeat (split; [assumption|]).
  cbv zeta.
  assert (Hstyle : forall p emitFixes,
    checkStyle ass p emitFixes =
      Ok (extend p
            (if ws =? cs then []
             else [ {| d_Pos := assertion_Pos ass;
                       d_End := assertion_End ass;
                       Message := "inconsistent assertion style (" ++
                                  Name (a_Omega ass) ++ " + " ++
                                  Name (a_Should ass) ++ ")";
                       SuggestedFixes :=
                         if emitFixes
                         then [ {| sf_Message := "change " ++
                                                 Name (a_Should ass) ++
                                                 " to " ++ keep;
                                   TextEdits :=
                                     [ {| te_Pos := Ident_Pos (a_Should ass);
                                          te_End := Ident_End (a_Should ass);
                                          NewText := keep |} ] |} ]
                         else [] |} ]))).
  { intros p emitFixes.
    destruct (checkStyle_cases n ass p emitFixes H)
      as (ws' & cs' & keep' & Hws' & Hcs' & Hkeep' & _ & _ & Hrun).
    assert (ws' = ws) by congruence. assert (cs' = cs) by congruence.
    subst ws' cs'. assert (keep' = keep) by congruence. subst keep'.
    rewrite Hrun. destruct (ws =? cs); [rewrite extend_nil|]; reflexivity. }
  pose proof (checkNilnessAssertions_cases n ass pass H) as C.
  cbv zeta in C.
  destruct ((_ =? UnknownMatcher) || _)%string.
  - unfold visit. rewrite H. cbn [bind]. rewrite C. cbn [bind negb].
    apply Hstyle.
  - destruct C as (callee & lparen & ellipsis & rparen & ws' & flip'
                   & Hm & Hname & Hws' & Hflip' & Hrun).
    assert (ws' = ws) by congruence. subst ws'.
    assert (flip' = flip) by congruence. subst flip'.
    exists callee, lparen, ellipsis, rparen.
    split; [exact Hm|]. split; [exact Hname|]. split.
    { destruct (isErrorExpr _ _); [destruct (isCallExpr _)|]; simpl; tauto. }
    unfold visit. rewrite H. cbn [bind]. rewrite Hrun. cbn [bind].
    rewrite Hstyle. f_equal. unfold extend, Report. cbn.
    rewrite <- app_assoc. reflexivity.
Qed.

Lemma reported_news (pass : Pass) (news news' : list Diagnostic) :
  Reported (extend pass news) = (Reported pass ++ news')%list -> news' = news.
Proof.
  cbn [extend Reported]. intros H. apply app_inv_head in H. auto.
Qed.

(** ** X10 *)

(** X10.  Every diagnostic a visit appends ranges over the whole visited
    call, from the start of its callee to one past its closing
    parenthesis, and carries at most one suggested fix. *)
Theorem visit_diagnostics_cover_the_call (n : Node) (pass pass' : Pass)
    (news : list Diagnostic) :
  visit pass n = Ok pass' ->
  Reported pass' = (Reported pass ++ news)%list ->
  forall d, In d news ->
    exists callFun lparen args ellipsis rparen,
      n = NExpr (ECallExpr callFun lparen args ellipsis rparen) /\
      d_Pos d = Expr_Pos callFun /\
      d_End d = rparen + 1 /\
      (List.length (SuggestedFixes d) <= 1)%nat.
Proof.
  intros Hvisit Hnews d Hin.
  destruct (getAssertion n) as [[ass|]|msg] eqn:H.
  2: { unfold visit in Hvisit. rewrite H in Hvisit. injection Hvisit as <-.
       rewrite <- (app_nil_r (Reported pass)) in Hnews at 1.
       apply app_inv_head in Hnews. subst news. contradiction. }
  2: { unfold visit in Hvisit. rewrite H in Hvisit. discriminate. }
  pose proof (recognized_whole n ass H) as Hwhole.
  assert (Hcall : exists callFun lparen args ellipsis rparen,
            CallExpr ass = ECallExpr callFun lparen args ellipsis rparen).
  { apply getAssertion_inv in H.
    destruct H as (? & ? & ? & ? & ? & ? & ? & ? & ? & ? & ? & _ & _ & _ & ->).
    cbn [CallExpr]. eauto 6. }
  destruct Hcall as (callFun & lparen & args & ellipsis & rparen & Hcall).
  exists callFun, lparen, args, ellipsis, rparen.
  rewrite Hwhole, Hcall. split; [reflexivity|].
  assert (Hrange : d_Pos d = assertion_Pos ass /\ d_End d = assertion_End ass /\
                   (List.length (SuggestedFixes d) <= 1)%nat).
  { rewrite Hwhole in Hvisit.
    assert (H' : getAssertion (NExpr (CallExpr ass)) = Ok (Some ass))
      by (rewrite <- Hwhole; exact H).
    destruct (visit_cases _ ass pass H')
      as (ws & cs & keep & flip & _ & _ & _ & _ & _ & _ & _ & _ & C).
    cbv zeta in C.
    destruct ((_ =? UnknownMatcher) || _)%string.
    - rewrite C in Hvisit. injection Hvisit as <-.
      apply reported_news in Hnews. subst news.
      destruct (ws =? cs); [contradiction|].
      destruct Hin as [<-|[]]. cbn. repeat split; lia.
    - destruct C as (callee & ? & ? & ? & _ & _ & _ & C).
      rewrite C in Hvisit. injection Hvisit as <-.
      apply reported_news in Hnews. subst news.
      destruct Hin as [<-|Hin]; [cbn; repeat split; lia|].
      destruct (ws =? cs); [contradiction|].
      destruct Hin as [<-|[]]. cbn.
      destruct (negb (negb _)); cbn; repeat split; lia. }
  unfold assertion_Pos, assertion_End in Hrange. rewrite Hcall in Hrange.
  exact Hrange.
Qed.

Lemma visit_diagnostics_cover_the_call_witness :
  exists pass' d1 d2,
    visit samplePass (sampleCall "Expect" [ident 17 "err"] "Should" "BeNil") =
      Ok pass' /\
    Reported pass' = (Reported samplePass ++ [d1; d2])%list /\
    (d_Pos d1 = 10 /\ d_End d1 = 47) /\ (d_Pos d2 = 10 /\ d_End d2 = 47).
Proof.
  do 3 eexists. split; [reflexivity|]. split; [reflexivity|].
  split.
  - destruct (visit_diagnostics_cover_the_call
                (sampleCall "Expect" [ident 17 "err"] "Should" "BeNil")
                samplePass _ _ eq_refl eq_refl _ (or_introl eq_refl))
      as (callFun & lparen & args & ellipsis & rparen & Hn & Hpos & Hend & _).
    injection Hn as <- <- <- <- <-. split; assumption.
  - destruct (visit_diagnostics_cover_the_call
                (sampleCall "Expect" [ident 17 "err"] "Should" "BeNil")
                samplePass _ _ eq_refl eq_refl _
                (or_intror (or_introl eq_refl)))
      as (callFun & lparen & args & ellipsis & rparen & Hn & Hpos & Hend & _).
    injection Hn as <- <- <- <- <-. split; assumption.
Defined.

Lemma renderInStyle_tokens (style : Style) (negated : bool) (token : string) :
  renderInStyle style negated = Ok token ->
  In token [Should; ShouldNot; To; NotTo].
Proof.
  unfold renderInStyle.
  destruct (style =? ShouldStyle); [|destruct (style =? ExpectStyle)];
    try destruct negated; intros [= <-]; simpl; tauto.
Qed.

(** ** X11 *)

(** X11.  Over all the diagnostics a visit appends for one assertion, the
    suggested edits are at most one rename of the callee of the matcher
    to BeNil, HaveOccurred or Succeed, and at most one rewrite of the
    comparator, to a token of the style of the wrapper: no two edits are
    aimed at the same identifier, and none at the wrapper or the
    subject. *)
Theorem visit_edits_never_collide (n : Node) (ass : assertion)
    (pass pass' : Pass) (news : list Diagnostic) :
  getAssertion n = Ok (Some ass) ->
  visit pass n = Ok pass' ->
  Reported pass' = (Reported pass ++ news)%list ->
  exists matcherEdits shouldEdits,
    flat_map (fun d => flat_map TextEdits (SuggestedFixes d)) news =
      (matcherEdits ++ shouldEdits)%list /\
    (List.length matcherEdits <= 1)%nat /\
    (List.length shouldEdits <= 1)%nat /\
    (forall edit, In edit matcherEdits ->
       exists callee lparen ellipsis rparen,
         Matcher ass = ECallExpr (EIdent callee) lparen [] ellipsis rparen /\
         te_Pos edit = Ident_Pos callee /\
         te_End edit = Ident_End callee /\
         In (NewText edit) ["BeNil"; "HaveOccurred"; "Succeed"]) /\
    (forall edit, In edit shouldEdits ->
       te_Pos edit = Ident_Pos (a_Should ass) /\
       te_End edit = Ident_End (a_Should ass) /\
       In (NewText edit) [Should; ShouldNot; To; NotTo] /\
       getStyle (NewText edit) = getStyle (Name (a_Omega ass))).
Proof.
  intros H Hvisit Hnews.
  destruct (visit_cases n ass pass H)
    as (ws & cs & keep & flip & Hws & _ & Hkeep & Hflip & Hkeepstyle
        & Hflipstyle & _ & _ & C).
  cbv zeta in C.
  assert (Hshould : forall token edit,
    renderInStyle ws (Negated ass) = Ok token \/
    renderInStyle ws (negb (Negated ass)) = Ok token ->
    getStyle token = Ok ws ->
    In edit [ {| te_Pos := Ident_Pos (a_Should ass);
                 te_End := Ident_End (a_Should ass); NewText := token |} ] ->
    te_Pos edit = Ident_Pos (a_Should ass) /\
    te_End edit = Ident_End (a_Should ass) /\
    In (NewText edit) [Should; ShouldNot; To; NotTo] /\
    getStyle (NewText edit) = getStyle (Name (a_Omega ass))).
  { intros token edit Hrender Hstyle [<-|[]]. cbn [te_Pos te_End NewText].
    split; [reflexivity|]. split; [reflexivity|]. split; [|congruence].
    destruct Hrender as [Hr|Hr]; exact (renderInStyle_tokens _ _ _ Hr). }
  destruct ((_ =? UnknownMatcher) || _)%string.
  - rewrite C in Hvisit. injection Hvisit as <-.
    apply reported_news in Hnews. subst news.
    exists []. destruct (ws =? cs).
    + exists []. cbn. repeat split; try lia; contradiction.
    + eexists. split; [reflexivity|]. cbn [List.length].
      split; [lia|]. split; [lia|]. split; [contradiction|].
      intros edit Hin. exact (Hshould keep edit (or_introl Hkeep) Hkeepstyle Hin).
  - destruct C as (callee & lparen & ellipsis & rparen & Hm & _ & Hexp & C).
    rewrite C in Hvisit. injection Hvisit as <-.
    apply reported_news in Hnews. subst news.
    exists [ {| te_Pos := Ident_Pos callee; te_End := Ident_End callee;
                NewText := expectedBySpec
                             (isErrorExpr (Subject ass) (TypesInfo pass))
                             (isCallExpr (Subject ass)) |} ].
    assert (Hmatcher : forall edit,
      In edit [ {| te_Pos := Ident_Pos callee; te_End := Ident_End callee;
                   NewText := expectedBySpec
                                (isErrorExpr (Subject ass) (TypesInfo pass))
                                (isCallExpr (Subject ass)) |} ] ->
      exists callee lparen ellipsis rparen,
        Matcher ass = ECallExpr (EIdent callee) lparen [] ellipsis rparen /\
        te_Pos edit = Ident_Pos callee /\
        te_End edit = Ident_End callee /\
        In (NewText edit) ["BeNil"; "HaveOccurred"; "Succeed"]).
    { intros edit [<-|[]]. exists callee, lparen, ellipsis, rparen.
      cbn [te_Pos te_End NewText]. auto. }
    destruct (negb (Bool.eqb _ _)); cbn [negb].
    + eexists. split.
      { destruct (ws =? cs); cbn; reflexivity. }
      cbn [List.length]. split; [lia|]. split; [lia|].
      split; [exact Hmatcher|].
      intros edit Hin. exact (Hshould flip edit (or_intror Hflip) Hflipstyle Hin).
    + destruct (ws =? cs).
      * exists []. cbn [flat_map SuggestedFixes TextEdits app List.length].
        split; [reflexivity|]. split; [lia|]. split; [lia|].
        split; [exact Hmatcher | contradiction].
      * eexists. split; [cbn; reflexivity|]. cbn [List.length].
        split; [lia|]. split; [lia|]. split; [exact Hmatcher|].
        intros edit Hin.
        exact (Hshould keep edit (or_introl Hkeep) Hkeepstyle Hin).
Qed.

Lemma visit_edits_never_collide_witness :
  exists pass' news,
    getAssertion (sampleCall "Expect" [ident 17 "err"] "Should" "BeNil") =
      Ok (Some sampleErrShouldBeNil) /\
    visit samplePass (sampleCall "Expect" [ident 17 "err"] "Should" "BeNil") =
      Ok pass' /\
    Reported pass' = (Reported samplePass ++ news)%list /\
    map NewText
        (flat_map (fun d => flat_map TextEdits (SuggestedFixes d)) news) =
      ["HaveOccurred"; "NotTo"].
Proof.
  do 2 eexists. split; [reflexivity|]. split; [reflexivity|].
  split; [reflexivity|].
  destruct (visit_edits_never_collide
              (sampleCall "Expect" [ident 17 "err"] "Should" "BeNil")
              sampleErrShouldBeNil samplePass _ _ eq_refl eq_refl eq_refl)
    as (matcherEdits & shouldEdits & Hedits & _).
  reflexivity.
Defined.

(** ** Fixes applied to recognized assertions *)

Lemma covers_elsewhere (edit : TextEdit) (id : Ident) :
  te_Pos edit <> Ident_Pos id -> covers edit id = false.
Proof.
  intros Hne. unfold covers. apply Z.eqb_neq in Hne. rewrite Hne. reflexivity.
Qed.

Lemma covers_exactly (id : Ident) (text : string) :
  covers {| te_Pos := Ident_Pos id; te_End := Ident_End id; NewText := text |}
         id = true.
Proof.
  unfold covers. cbn [te_Pos te_End]. rewrite !Z.eqb_refl. reflexivity.
Qed.

Lemma renamed_elsewhere (edits : list TextEdit) (id : Ident) :
  (forall edit, In edit edits -> te_Pos edit <> Ident_Pos id) ->
  renamed edits id = id.
Proof.
  intros Hall. unfold renamed.
  replace (find (fun edit => covers edit id) edits) with (@None TextEdit);
    [reflexivity|].
  symmetry. induction edits as [|edit rest IH]; [reflexivity|].
  cbn [find]. rewrite covers_elsewhere by (apply Hall; left; reflexivity).
  apply IH. intros e He. apply Hall. right. exact He.
Qed.

Lemma renamedCallee_elsewhere (edits : list TextEdit) (e : Expr) :
  (forall edit, In edit edits -> te_Pos edit <> Expr_Pos e) ->
  renamedCallee edits e = e.
Proof.
  intros Hall. destruct e as [|callFun lparen args ellipsis rparen| |];
    try reflexivity.
  destruct callFun as [callee| | |]; try reflexivity.
  cbn [renamedCallee]. rewrite renamed_elsewhere; [reflexivity|].
  exact Hall.
Qed.

Lemma applyFix_recognized (n : Node) (ass : assertion) (fix_ : SuggestedFix)
    (negated : bool) :
  getAssertion n = Ok (Some ass) ->
  comparatorNegated (Name (renamed (TextEdits fix_) (a_Should ass))) =
    Some negated ->
  exists ass',
    getAssertion (applyFix fix_ n) = Ok (Some ass') /\
    a_Omega ass' = a_Omega ass /\
    Subject ass' = Subject ass /\
    a_Should ass' = renamed (TextEdits fix_) (a_Should ass) /\
    Matcher ass' = renamedCallee (TextEdits fix_) (Matcher ass) /\
    Negated ass' = negated.
Proof.
  intros H Hneg. apply getAssertion_inv in H.
  destruct H as (omega & olparen & subject & more & oellipsis & orparen & sel
                 & lparen & matcher & ellipsis & rparen & -> & Hw & _ & Hass).
  assert (Ho : a_Omega ass = omega) by (rewrite Hass; reflexivity).
  assert (Hj : Subject ass = subject) by (rewrite Hass; reflexivity).
  assert (Hs : a_Should ass = sel) by (rewrite Hass; reflexivity).
  assert (Hm : Matcher ass = matcher) by (rewrite Hass; reflexivity).
  rewrite Ho, Hj, Hs, Hm. rewrite Hs in Hneg.
  unfold applyFix. cbn [map].
  eexists. split.
  - apply getAssertion_shape; [exact Hw | exact Hneg].
  - repeat split.
Qed.

Lemma getKnownMatcher_of_call (ass : assertion) (callee : Ident)
    (lparen ellipsis rparen : Pos) :
  Matcher ass = ECallExpr (EIdent callee) lparen [] ellipsis rparen ->
  In (Name callee) [IsNil; HaveOccurred; Succeed] ->
  getKnownMatcher ass = (Some callee, Name callee).
Proof.
  intros Hm Hin. unfold getKnownMatcher. rewrite Hm.
  cbn [List.length Nat.eqb negb]. apply oneOf_In in Hin. rewrite Hin.
  reflexivity.
Qed.

Lemma getKnownMatcher_same_matcher (ass ass' : assertion) :
  Matcher ass' = Matcher ass -> getKnownMatcher ass' = getKnownMatcher ass.
Proof.
  intros Hm. unfold getKnownMatcher. rewrite Hm. reflexivity.
Qed.

(** The tree after the fix of the nilness check. *)
Lemma nilness_fix_applied (n : Node) (ass : assertion) (callee : Ident)
    (lparen ellipsis rparen : Pos) (expected flip message : string)
    (invert : bool) :
  getAssertion n = Ok (Some ass) ->
  Ident_Pos (a_Should ass) < Expr_Pos (Matcher ass) ->
  Matcher ass = ECallExpr (EIdent callee) lparen [] ellipsis rparen ->
  In expected [IsNil; HaveOccurred; Succeed] ->
  comparatorNegated flip = Some (negb (Negated ass)) ->
  exists ass',
    getAssertion
      (applyFix
         {| sf_Message := message;
            TextEdits :=
              {| te_Pos := Ident_Pos callee; te_End := Ident_End callee;
                 NewText := expected |} ::
              (if invert
               then [ {| te_Pos := Ident_Pos (a_Should ass);
                         te_End := Ident_End (a_Should ass);
                         NewText := flip |} ]
               else []) |} n) = Ok (Some ass') /\
    a_Omega ass' = a_Omega ass /\
    Subject ass' = Subject ass /\
    a_Should ass' =
      (if invert
       then {| NamePos := NamePos (a_Should ass); Name := flip |}
       else a_Should ass) /\
    Negated ass' = (if invert then negb (Negated ass) else Negated ass) /\
    Matcher ass' =
      ECallExpr (EIdent {| NamePos := NamePos callee; Name := expected |})
                lparen [] ellipsis rparen /\
    getKnownMatcher ass' =
      (Some {| NamePos := NamePos callee; Name := expected |}, expected).
Proof.
  intros H Hbefore Hm Hexp Hflip.
  rewrite Hm in Hbefore. cbn [Expr_Pos] in Hbefore.
  set (mEdit := {| te_Pos := Ident_Pos callee; te_End := Ident_End callee;
                   NewText := expected |}).
  set (sEdit := {| te_Pos := Ident_Pos (a_Should ass);
                   te_End := Ident_End (a_Should ass); NewText := flip |}).
  assert (Hskip : covers mEdit (a_Should ass) = false)
    by (apply covers_elsewhere; cbn [mEdit te_Pos]; lia).
  assert (Hsel : renamed (mEdit :: (if invert then [sEdit] else []))
                         (a_Should ass) =
                 if invert
                 then {| NamePos := NamePos (a_Should ass); Name := flip |}
                 else a_Should ass).
  { unfold renamed. cbn [find]. rewrite Hskip. destruct invert; cbn [find].
    - unfold sEdit at 1. rewrite covers_exactly. reflexivity.
    - reflexivity. }
  assert (Hneg : comparatorNegated
                   (Name (renamed (mEdit :: (if invert then [sEdit] else []))
                                  (a_Should ass))) =
                 Some (if invert then negb (Negated ass) else Negated ass)).
  { rewrite Hsel. destruct invert; cbn [Name]; [exact Hflip|].
    exact (proj2 (recognized_names _ _ H)). }
  destruct (applyFix_recognized n ass
              {| sf_Message := message;
                 TextEdits := mEdit :: (if invert then [sEdit] else []) |}
              _ H Hneg)
    as (ass' & Hagain & Homega & Hsubject & Hshould & Hmatcher & Hnegated).
  cbn [TextEdits] in Hshould, Hmatcher.
  rewrite Hsel in Hshould.
  assert (Hmatcher' : Matcher ass' =
            ECallExpr (EIdent {| NamePos := NamePos callee; Name := expected |})
                      lparen [] ellipsis rparen).
  { rewrite Hmatcher, Hm. cbn [renamedCallee]. unfold renamed. cbn [find].
    unfold mEdit at 1. rewrite covers_exactly. reflexivity. }
  exists ass'. repeat (split; [assumption|]).
  exact (getKnownMatcher_of_call ass' _ _ _ _ Hmatcher' Hexp).
Qed.

(** The tree after the fix of the style check. *)
Lemma style_fix_applied (n : Node) (ass : assertion) (keep message : string) :
  getAssertion n = Ok (Some ass) ->
  Ident_Pos (a_Should ass) < Expr_Pos (Matcher ass) ->
  comparatorNegated keep = Some (Negated ass) ->
  exists ass',
    getAssertion
      (applyFix
         {| sf_Message := message;
            TextEdits := [ {| te_Pos := Ident_Pos (a_Should ass);
                              te_End := Ident_End (a_Should ass);
                              NewText := keep |} ] |} n) = Ok (Some ass') /\
    a_Omega ass' = a_Omega ass /\
    Subject ass' = Subject ass /\
    Name (a_Should ass') = keep /\
    Negated ass' = Negated ass /\
    Matcher ass' = Matcher ass.
Proof.
  intros H Hbefore Hkeep.
  set (sEdit := {| te_Pos := Ident_Pos (a_Should ass);
                   te_End := Ident_End (a_Should ass); NewText := keep |}).
  assert (Hsel : renamed [sEdit] (a_Should ass) =
                 {| NamePos := NamePos (a_Should ass); Name := keep |}).
  { unfold renamed. cbn [find]. unfold sEdit at 1. rewrite covers_exactly.
    reflexivity. }
  assert (Hneg : comparatorNegated (Name (renamed [sEdit] (a_Should ass))) =
                 Some (Negated ass))
    by (rewrite Hsel; exact Hkeep).
  destruct (applyFix_recognized n ass
              {| sf_Message := message; TextEdits := [sEdit] |} _ H Hneg)
    as (ass' & Hagain & Homega & Hsubject & Hshould & Hmatcher & Hnegated).
  cbn [TextEdits] in Hshould, Hmatcher. rewrite Hsel in Hshould.
  exists ass'. split; [exact Hagain|]. split; [exact Homega|].
  split; [exact Hsubject|]. split; [rewrite Hshould; reflexivity|].
  split; [exact Hnegated|].
  rewrite Hmatcher. apply renamedCallee_elsewhere.
  intros edit [<-|[]]. cbn [sEdit te_Pos]. lia.
Qed.

(** A recognized assertion with equal styles and an unknown or expected
    matcher passes the visit in silence. *)
Lemma visit_silent (n : Node) (ass : assertion) (pass : Pass) :
  getAssertion n = Ok (Some ass) ->
  getStyle (Name (a_Should ass)) = getStyle (Name (a_Omega ass)) ->
  (snd (getKnownMatcher ass) = UnknownMatcher \/
   snd (getKnownMatcher ass) =
     expectedBySpec (isErrorExpr (Subject ass) (TypesInfo pass))
                    (isCallExpr (Subject ass))) ->
  visit pass n = Ok pass.
Proof.
  intros H Hstyles Hmatcher.
  destruct (visit_cases n ass pass H)
    as (ws & cs & keep & flip & Hws & Hcs & _ & _ & _ & _ & _ & _ & C).
  cbv zeta in C.
  assert (E : ((snd (getKnownMatcher ass) =? UnknownMatcher) ||
               (snd (getKnownMatcher ass) =?
                expectedBySpec (isErrorExpr (Subject ass) (TypesInfo pass))
                               (isCallExpr (Subject ass))))%string = true).
  { apply orb_true_iff. rewrite !String.eqb_eq. exact Hmatcher. }
  rewrite E in C. rewrite C.
  assert (ws = cs) by congruence. subst cs. rewrite Z.eqb_refl.
  rewrite extend_nil. reflexivity.
Qed.

(** ** X12 *)

(** X12.  Applying the fix of a nilness diagnostic, with the comparator
    standing before the matcher in the source, gives an assertion on the
    same subject whose matcher is the expected one and which asserts
    nilness in the same sense as before: whether the matcher matches nil,
    taken together with the negation, is unchanged.  The nilness check
    has nothing more to report on it. *)
Theorem nilness_fix_keeps_the_sense (n : Node) (ass : assertion)
    (pass pass' : Pass) (emitted : bool) (d : Diagnostic) (fix_ : SuggestedFix) :
  getAssertion n = Ok (Some ass) ->
  checkNilnessAssertions ass pass = Ok (emitted, pass') ->
  Reported pass' = (Reported pass ++ [d])%list ->
  SuggestedFixes d = [fix_] ->
  Ident_Pos (a_Should ass) < Expr_Pos (Matcher ass) ->
  exists ass',
    getAssertion (applyFix fix_ n) = Ok (Some ass') /\
    a_Omega ass' = a_Omega ass /\
    Subject ass' = Subject ass /\
    snd (getKnownMatcher ass') =
      expectedBySpec (isErrorExpr (Subject ass) (TypesInfo pass))
                     (isCallExpr (Subject ass)) /\
    xorb (matchesNil (snd (getKnownMatcher ass'))) (Negated ass') =
      xorb (matchesNil (snd (getKnownMatcher ass))) (Negated ass) /\
    forall p : Pass,
      TypesInfo p = TypesInfo pass ->
      checkNilnessAssertions ass' p = Ok (false, p).
Proof.
  intros H Hrun Hrep Hfix Hbefore.
  pose proof (checkNilnessAssertions_cases n ass pass H) as C.
  cbv zeta in C.
  destruct ((_ =? UnknownMatcher) || _)%string.
  { rewrite C in Hrun. injection Hrun as _ <-. exfalso.
    apply (f_equal (@List.length _)) in Hrep.
    rewrite length_app in Hrep. cbn in Hrep. lia. }
  destruct C as (callee & lparen & ellipsis & rparen & style & flip
                 & Hm & Hname & Hstyle & Hflip & Hrun').
  rewrite Hrun' in Hrun. injection Hrun as _ <-.
  cbn [Report Reported] in Hrep. apply app_inv_head in Hrep.
  injection Hrep as <-. cbn [SuggestedFixes] in Hfix. injection Hfix as <-.
  destruct (getStyle_wrapper _ (proj1 (recognized_names _ _ H)))
    as (style' & Hstyle' & Hrange).
  assert (style' = style) by congruence. subst style'.
  destruct (renderInStyle_roundtrip style (negb (Negated ass)) Hrange)
    as (flip' & Hflip' & _ & Hflipneg).
  assert (flip' = flip) by congruence. subst flip'.
  assert (Hexp : In (expectedBySpec (isErrorExpr (Subject ass) (TypesInfo pass))
                                    (isCallExpr (Subject ass)))
                    [IsNil; HaveOccurred; Succeed]).
  { destruct (isErrorExpr _ _); [destruct (isCallExpr _)|]; simpl; tauto. }
  destruct (nilness_fix_applied n ass callee lparen ellipsis rparen _ flip
              ("change matcher to " ++
               expectedBySpec (isErrorExpr (Subject ass) (TypesInfo pass))
                              (isCallExpr (Subject ass)) ++
               (if negb (Bool.eqb
                           (matchesNil (snd (getKnownMatcher ass)))
                           (matchesNil
                              (expectedBySpec
                                 (isErrorExpr (Subject ass) (TypesInfo pass))
                                 (isCallExpr (Subject ass)))))
                then " and invert the assertion" else ""))
              (negb (Bool.eqb
                       (matchesNil (snd (getKnownMatcher ass)))
                       (matchesNil
                          (expectedBySpec
                             (isErrorExpr (Subject ass) (TypesInfo pass))
                             (isCallExpr (Subject ass))))))
              H Hbefore Hm Hexp Hflipneg)
    as (ass' & Hagain & Homega & Hsubject & _ & Hnegated & _ & Hk).
  exists ass'. split; [exact Hagain|]. split; [exact Homega|].
  split; [exact Hsubject|]. rewrite Hk. cbn [snd].
  split; [reflexivity|]. split.
  - rewrite Hnegated.
    destruct (matchesNil (snd (getKnownMatcher ass))),
             (matchesNil (expectedBySpec _ _)), (Negated ass); reflexivity.
  - intros p Hinfo.
    pose proof (checkNilnessAssertions_cases _ ass' p Hagain) as C'.
    cbv zeta in C'. rewrite Hk in C'. cbn [snd] in C'.
    rewrite Hsubject, Hinfo, String.eqb_refl, orb_true_r in C'. exact C'.
Qed.

Lemma nilness_fix_keeps_the_sense_witness :
  exists pass' d fix_ ass',
    getAssertion (sampleCall "Expect" [ident 17 "err"] "Should" "BeNil") =
      Ok (Some sampleErrShouldBeNil) /\
    checkNilnessAssertions sampleErrShouldBeNil samplePass = Ok (true, pass') /\
    Reported pass' = (Reported samplePass ++ [d])%list /\
    SuggestedFixes d = [fix_] /\
    Ident_Pos (a_Should sampleErrShouldBeNil) <
      Expr_Pos (Matcher sampleErrShouldBeNil) /\
    getAssertion
      (applyFix fix_ (sampleCall "Expect" [ident 17 "err"] "Should" "BeNil")) =
      Ok (Some ass') /\
    snd (getKnownMatcher ass') = "HaveOccurred" /\
    checkNilnessAssertions ass' samplePass = Ok (false, samplePass).
Proof.
  do 3 eexists.
  destruct (nilness_fix_keeps_the_sense
              (sampleCall "Expect" [ident 17 "err"] "Should" "BeNil")
              sampleErrShouldBeNil samplePass _ true _ _
              eq_refl eq_refl eq_refl eq_refl eq_refl)
    as (ass' & Hagain & _ & _ & Hk & _ & Hsilent).
  exists ass'. repeat (split; [reflexivity|]).
  split; [exact Hagain|]. split; [exact Hk|].
  apply Hsilent. reflexivity.
Defined.

(** ** X13 *)

(** X13.  One round of fixes is enough: with the comparator standing
    before the matcher in the source, the tree obtained by applying, in
    order, every fix of the diagnostics that a visit appended for a
    recognized assertion is visited in silence under the same type
    information. *)
Theorem visit_fixes_reach_a_fixpoint (n : Node) (ass : assertion)
    (pass pass' : Pass) (news : list Diagnostic) :
  getAssertion n = Ok (Some ass) ->
  visit pass n = Ok pass' ->
  Reported pass' = (Reported pass ++ news)%list ->
  Ident_Pos (a_Should ass) < Expr_Pos (Matcher ass) ->
  forall p : Pass,
    TypesInfo p = TypesInfo pass ->
    visit p (applyFixes (flat_map SuggestedFixes news) n) = Ok p.
Proof.
  intros H Hvisit Hnews Hbefore p Hinfo.
  destruct (visit_cases n ass pass H)
    as (ws & cs & keep & flip & Hws & Hcs & Hkeep & Hflip & Hkeepstyle
        & Hflipstyle & Hkeepneg & Hflipneg & C).
  cbv zeta in C.
  destruct ((_ =? UnknownMatcher) || _)%string eqn:Esilent.
  - (* the nilness check was silent *)
    rewrite C in Hvisit. injection Hvisit as <-.
    apply reported_news in Hnews. subst news.
    apply orb_true_iff in Esilent. rewrite !String.eqb_eq in Esilent.
    destruct (ws =? cs) eqn:Estyles.
    + apply Z.eqb_eq in Estyles. subst cs. cbn [flat_map applyFixes fold_left].
      apply (visit_silent n ass p H); [congruence|].
      rewrite Hinfo. exact Esilent.
    + cbn [flat_map SuggestedFixes app applyFixes fold_left].
      destruct (style_fix_applied n ass keep
                  ("change " ++ Name (a_Should ass) ++ " to " ++ keep)
                  H Hbefore Hkeepneg)
        as (ass' & Hagain & Homega & Hsubject & Hname & _ & Hmatcher).
      apply (visit_silent _ ass' p Hagain).
      * rewrite Hname, Homega. congruence.
      * rewrite (getKnownMatcher_same_matcher ass ass' Hmatcher), Hsubject,
          Hinfo. exact Esilent.
  - (* the nilness check reported *)
    destruct C as (callee & lparen & ellipsis & rparen & Hm & _ & Hexp & C).
    rewrite C in Hvisit. injection Hvisit as <-.
    apply reported_news in Hnews. subst news.
    set (expected := expectedBySpec (isErrorExpr (Subject ass) (TypesInfo pass))
                                    (isCallExpr (Subject ass))) in *.
    destruct (negb (Bool.eqb (matchesNil (snd (getKnownMatcher ass)))
                             (matchesNil expected))) eqn:Einvert.
    + (* with the comparator inverted: the style check suggests no fix *)
      destruct (nilness_fix_applied n ass callee lparen ellipsis rparen
                  expected flip
                  ("change matcher to " ++ expected ++
                   " and invert the assertion")
                  true H Hbefore Hm Hexp Hflipneg)
        as (ass' & Hagain & Homega & Hsubject & Hshould & _ & _ & Hk).
      assert (Hfixed : visit p
                (applyFix
                   {| sf_Message := "change matcher to " ++ expected ++
                                    " and invert the assertion";
                      TextEdits :=
                        [ {| te_Pos := Ident_Pos callee;
                             te_End := Ident_End callee;
                             NewText := expected |};
                          {| te_Pos := Ident_Pos (a_Should ass);
                             te_End := Ident_End (a_Should ass);
                             NewText := flip |} ] |} n) = Ok p).
      { apply (visit_silent _ ass' p Hagain).
        - rewrite Hshould, Homega. cbn [Name]. congruence.
        - right. rewrite Hk, Hsubject, Hinfo. reflexivity. }
      cbn [negb]. destruct (ws =? cs); exact Hfixed.
    + (* the comparator kept: the style check may add its own fix *)
      destruct (nilness_fix_applied n ass callee lparen ellipsis rparen
                  expected flip ("change matcher to " ++ expected ++ "")
                  false H Hbefore Hm Hexp Hflipneg)
        as (ass1 & Hagain1 & Homega1 & Hsubject1 & Hshould1 & Hnegated1
            & Hmatcher1 & Hk1).
      cbn [negb]. destruct (ws =? cs) eqn:Estyles.
      * apply Z.eqb_eq in Estyles. subst cs.
        cbn [flat_map SuggestedFixes app applyFixes fold_left].
        apply (visit_silent _ ass1 p Hagain1).
        -- rewrite Hshould1, Homega1. congruence.
        -- right. rewrite Hk1, Hsubject1, Hinfo. reflexivity.
      * cbn [flat_map SuggestedFixes app applyFixes fold_left].
        assert (Hbefore1 : Ident_Pos (a_Should ass1) < Expr_Pos (Matcher ass1)).
        { rewrite Hshould1, Hmatcher1. rewrite Hm in Hbefore. exact Hbefore. }
        assert (Hkeepneg1 : comparatorNegated keep = Some (Negated ass1))
          by (rewrite Hnegated1; exact Hkeepneg).
        pose proof (style_fix_applied _ ass1 keep
                      ("change " ++ Name (a_Should ass) ++ " to " ++ keep)
                      Hagain1 Hbefore1 Hkeepneg1) as S.
        rewrite Hshould1 in S.
        destruct S as (ass2 & Hagain2 & Homega2 & Hsubject2 & Hname2 & _
                       & Hmatcher2).
        apply (visit_silent _ ass2 p Hagain2).
        -- rewrite Hname2, Homega2, Homega1. congruence.
        -- right.
           rewrite (getKnownMatcher_same_matcher ass1 ass2 Hmatcher2), Hk1,
             Hsubject2, Hsubject1, Hinfo. reflexivity.
Qed.

Lemma visit_fixes_reach_a_fixpoint_witness :
  exists pass' news,
    getAssertion (sampleCall "Expect" [ident 17 "err"] "Should" "BeNil") =
      Ok (Some sampleErrShouldBeNil) /\
    visit samplePass (sampleCall "Expect" [ident 17 "err"] "Should" "BeNil") =
      Ok pass' /\
    Reported pass' = (Reported samplePass ++ news)%list /\
    Ident_Pos (a_Should sampleErrShouldBeNil) <
      Expr_Pos (Matcher sampleErrShouldBeNil) /\
    applyFixes (flat_map SuggestedFixes news)
               (sampleCall "Expect" [ident 17 "err"] "Should" "BeNil") =
      sampleCall "Expect" [ident 17 "err"] "NotTo" "HaveOccurred" /\
    visit samplePass
          (sampleCall "Expect" [ident 17 "err"] "NotTo" "HaveOccurred") =
      Ok samplePass.
Proof.
  do 2 eexists. repeat (split; [reflexivity|]).
  exact (visit_fixes_reach_a_fixpoint
           (sampleCall "Expect" [ident 17 "err"] "Should" "BeNil")
           sampleErrShouldBeNil samplePass _ _
           eq_refl eq_refl eq_refl eq_refl samplePass eq_refl).
Defined.

(** ** X14 *)

(** X14.  On a recognized assertion the [checkStyle] of src/main.go and
    the later one, called with [emitFixes] set, report in the same
    cases, over the same range and with the same edit; the earlier one
    misspells the message and leaves the description of its fix empty. *)
Theorem MainGo_checkStyle_same_edits (n : Node) (ass : assertion) (pass : Pass) :
  getAssertion n = Ok (Some ass) ->
  (checkStyle ass pass true = Ok pass /\
   MainGo.checkStyle ass pass = Ok pass) \/
  (exists d d',
     checkStyle ass pass true = Ok (Report pass d) /\
     MainGo.checkStyle ass pass = Ok (Report pass d') /\
     d_Pos d' = d_Pos d /\ d_End d' = d_End d /\
     map TextEdits (SuggestedFixes d') = map TextEdits (SuggestedFixes d) /\
     (List.length (SuggestedFixes d') = 1)%nat /\
     map sf_Message (SuggestedFixes d') = [EmptyString] /\
     Message d = "inconsistent assertion style (" ++ Name (a_Omega ass) ++
                 " + " ++ Name (a_Should ass) ++ ")" /\
     Message d' = "incosistent assertion style (" ++ Name (a_Omega ass) ++
                  " + " ++ Name (a_Should ass) ++ ")").
Proof.
  intros H.
  destruct (checkStyle_cases n ass pass true H)
    as (ws & cs & keep & Hws & Hcs & Hkeep & _ & _ & Hrun).
  unfold MainGo.checkStyle. rewrite Hrun, Hws, Hcs. cbn [bind].
  destruct (ws =? cs); cbn [negb].
  - left. split; reflexivity.
  - right. rewrite Hkeep. cbn [bind]. do 2 eexists.
    split; [reflexivity|]. split; [reflexivity|]. cbn. repeat split.
Qed.

Lemma MainGo_checkStyle_same_edits_witness :
  getAssertion (sampleCall "Expect" [ident 17 "x"] "Should" "BeNil") =
    Ok (Some sampleXShouldBeNil) /\
  exists d d',
    checkStyle sampleXShouldBeNil samplePass true = Ok (Report samplePass d) /\
    MainGo.checkStyle sampleXShouldBeNil samplePass = Ok (Report samplePass d') /\
    map TextEdits (SuggestedFixes d') = map TextEdits (SuggestedFixes d).
Proof.
  split; [reflexivity|].
  destruct (MainGo_checkStyle_same_edits
              (sampleCall "Expect" [ident 17 "x"] "Should" "BeNil")
              sampleXShouldBeNil samplePass eq_refl)
    as [[Hsilent _] | (d & d' & Hnew & Hold & _ & _ & Hedits & _)].
  - exfalso. apply (f_equal (fun r => match r with
                                     | Ok p => List.length (Reported p)
                                     | Panic _ => 0%nat
                                     end)) in Hsilent.
    vm_compute in Hsilent. discriminate Hsilent.
  - exists d, d'. auto.
Defined.

(** ** The message of the later style check, at a sample *)

Lemma checkStyle_message_witness :
  getAssertion (sampleCall "Expect" [ident 17 "x"] "Should" "BeNil") =
    Ok (Some sampleXShouldBeNil) /\
  exists pass' d,
    checkStyle sampleXShouldBeNil samplePass false = Ok pass' /\
    In d (Reported pass') /\ ~ In d (Reported samplePass) /\
    Message d = "inconsistent assertion style (Expect + Should)".
Proof.
  split; [reflexivity|]. do 2 eexists.
  split; [reflexivity|]. split; [left; reflexivity|].
  split; [intros []|].
  exact (checkStyle_message
           (sampleCall "Expect" [ident 17 "x"] "Should" "BeNil")
           sampleXShouldBeNil samplePass _ false _
           eq_refl eq_refl (or_introl eq_refl) (fun absurd => absurd)).
Defined.
